(** * extract-glb: the GLB container parser and the accessor decoder

    A shallow embedding of [src/extract-glb.ts] and the properties of its two
    core functions, [parseGLB] and [extractAccessorData].

    Conventions of the embedding.
    - A JavaScript call either returns a value or throws: [completion].
    - The numbers that take part in offset arithmetic are integers, or [NaN]
      once [undefined] has entered a product: [jsnum].  Descriptor fields
      hold what the glTF schema declares for them (integers, a string for
      [type]); an absent optional field is [None].  Integer arithmetic is
      exact, as it is in JavaScript below 2^53.  A component type that is
      a text and not a number is the subject of [extractAccessorData_keyed].
    - A [Buffer] is a view on an [ArrayBuffer]; the view is kept together with
      the bytes that lie before and after it in the underlying store.
    - Typed arrays use the little-endian byte order of the host. *)

From Stdlib Require Import ZArith List String Ascii Strings.Byte Lia Bool.
From Stdlib Require Import SpecFloat DecimalString.
From coqutil Require Import Byte Word.LittleEndianList.
From stdpp Require Import base list strings gmap.

Local Open Scope Z_scope.

(** ** Completions: a call returns or throws *)

Inductive JsError : Type :=
  | Error (message : string)   (* [throw new Error(message)] *)
  | RangeError                 (* out-of-range access, bad typed-array length *)
  | TypeError                  (* property read on [undefined] *)
  | SyntaxError.               (* [JSON.parse] on malformed text *)

Inductive completion (A : Type) : Type :=
  | Return (a : A)
  | Throw (e : JsError).
Arguments Return {A} a.
Arguments Throw {A} e.

#[global] Instance completion_ret : MRet completion := fun A a => Return a.
#[global] Instance completion_bind : MBind completion := fun A B f m =>
  match m with
  | Return a => f a
  | Throw e => Throw e
  end.

Definition returns {A} (m : completion A) : bool :=
  match m with Return _ => true | Throw _ => false end.

(** ** Numbers in offset arithmetic *)

Inductive jsnum : Type :=
  | Fin (z : Z)
  | NaN.
Coercion Fin : Z >-> jsnum.

Definition jsmul (a b : jsnum) : jsnum :=
  match a, b with
  | Fin x, Fin y => Fin (x * y)
  | _, _ => NaN
  end.

Definition jsadd (a b : jsnum) : jsnum :=
  match a, b with
  | Fin x, Fin y => Fin (x + y)
  | _, _ => NaN
  end.

(** [x || 0] on an optional integer field: [undefined] and [0] are falsy. *)
Definition or_zero (x : option Z) : Z :=
  match x with
  | Some z => if z =? 0 then 0 else z
  | None => 0
  end.

(** ** Buffer: a byte view on an ArrayBuffer *)

Module Buffer.

Record t : Type := mk {
  before : list byte;   (* the store below the view *)
  bytes : list byte;    (* the bytes the view shows, [this[0 .. length)] *)
  after : list byte     (* the store above the view *)
}.

(** [buf.buffer], [buf.byteOffset], [buf.length] *)
Definition buffer (b : t) : list byte := before b ++ bytes b ++ after b.
Definition byteOffset (b : t) : nat := List.length (before b).
Definition length (b : t) : nat := List.length (bytes b).

(** A buffer that owns its whole store, as [fs.readFileSync] returns. *)
Definition of_bytes (l : list byte) : t := mk [] l [].

(** The index clamp of [subarray]: truncate, count a negative index
    from the end, clamp into [0, length]; [NaN] counts as 0. *)
Definition adjustOffset (offset : jsnum) (length : Z) : Z :=
  match offset with
  | NaN => 0
  | Fin offset =>
      if offset =? 0 then 0
      else if offset <? 0 then
        let offset := offset + length in
        if 0 <? offset then offset else 0
      else if offset <? length then offset
      else length
  end.

(** [buf.subarray(start, end)]: a view on the same store *)
Definition subarray (b : t) (start end_ : jsnum) : t :=
  let srcLength := Z.of_nat (length b) in
  let start := adjustOffset start srcLength in
  let end_ := adjustOffset end_ srcLength in
  let newLength := if start <? end_ then end_ - start else 0 in
  mk (before b ++ take (Z.to_nat start) (bytes b))
     (take (Z.to_nat newLength) (drop (Z.to_nat start) (bytes b)))
     (drop (Z.to_nat newLength) (drop (Z.to_nat start) (bytes b)) ++ after b).

(** [buf[i]], [undefined] outside the view *)
Definition get (b : t) (i : Z) : option Z :=
  if i <? 0 then None
  else byte.unsigned <$> bytes b !! Z.to_nat i.

(** [buf.readUInt32LE(offset)]: the bounds error is raised when the first
    or the last of the four bytes is [undefined]; the two bytes between
    them are then inside the view as well. *)
Definition readUInt32LE (b : t) (offset : Z) : completion Z :=
  match get b offset, get b (offset + 3) with
  | Some first, Some last =>
      match get b (offset + 1), get b (offset + 2) with
      | Some b1, Some b2 =>
          Return (first + b1 * 2 ^ 8 + b2 * 2 ^ 16 + last * 2 ^ 24)
      | _, _ => Throw RangeError
      end
  | _, _ => Throw RangeError
  end.

(** [buf.toString('ascii')]: the high bit of every byte is cleared
    before the byte is taken as a character code. *)
Definition ascii_char (x : byte) : ascii :=
  ascii_of_N (N.land (Byte.to_N x) 127).

Definition toString_ascii (b : t) : string :=
  string_of_list_ascii (map ascii_char (bytes b)).

(** [arrayBuffer.slice(begin, end)] for indices that are not negative *)
Definition ArrayBuffer_slice (store : list byte) (begin end_ : nat) : list byte :=
  take (end_ - begin) (drop begin store).

End Buffer.

(** ** JSON.parse

    [JSON.parse(data.toString('utf8'))] read on the UTF-8 bytes of the text.
    Every byte below 128 decodes to itself and every other byte decodes to
    characters above U+007F, which the grammar admits inside strings only,
    so the text is accepted exactly when its bytes are.  The tree keeps a
    number as its lexeme and a string as the bytes between its quotes. *)

Module JSON.

#[warnings="-register-all"] Inductive value : Type :=
  | Null
  | Bool (b : bool)
  | Number (lexeme : list byte)
  | String (raw : list byte)
  | Array (elements : list value)
  | Object (members : list (list byte * value)).

Definition ch (c : ascii) (b : byte) : bool := Byte.eqb b (byte_of_ascii c).
Definition quote : ascii := "034".

Definition is_ws (b : byte) : bool :=
  ch " " b || ch "009" b || ch "010" b || ch "013" b.

Definition is_digit (b : byte) : bool :=
  (48 <=? byte.unsigned b) && (byte.unsigned b <=? 57).

Definition is_hex (b : byte) : bool :=
  is_digit b
  || ((65 <=? byte.unsigned b) && (byte.unsigned b <=? 70))
  || ((97 <=? byte.unsigned b) && (byte.unsigned b <=? 102)).

Fixpoint skip_ws (s : list byte) : list byte :=
  match s with
  | b :: r => if is_ws b then skip_ws r else s
  | [] => []
  end.

(** The characters of a string after its opening quote, up to the
    closing one. *)
Fixpoint string_body (s : list byte) : option (list byte * list byte) :=
  match s with
  | [] => None
  | b :: r =>
      if ch quote b then Some ([], r)
      else if ch "\" b then
        match r with
        | e :: r1 =>
            if ch quote e || ch "\" e || ch "/" e || ch "b" e || ch "f" e
               || ch "n" e || ch "r" e || ch "t" e
            then
              match string_body r1 with
              | Some (body, rest) => Some (b :: e :: body, rest)
              | None => None
              end
            else if ch "u" e then
              match r1 with
              | h1 :: h2 :: h3 :: h4 :: r2 =>
                  if is_hex h1 && is_hex h2 && is_hex h3 && is_hex h4 then
                    match string_body r2 with
                    | Some (body, rest) =>
                        Some (b :: e :: h1 :: h2 :: h3 :: h4 :: body, rest)
                    | None => None
                    end
                  else None
              | _ => None
              end
            else None
        | [] => None
        end
      else if byte.unsigned b <? 32 then None
      else
        match string_body r with
        | Some (body, rest) => Some (b :: body, rest)
        | None => None
        end
  end.

Fixpoint digits (s : list byte) : list byte * list byte :=
  match s with
  | b :: r =>
      if is_digit b then let '(d, rest) := digits r in (b :: d, rest)
      else ([], s)
  | [] => ([], [])
  end.

(** An optional minus sign; an integer part, 0 or a digit from 1 to 9
    followed by digits; an optional fraction, a point and one digit or
    more; an optional exponent, e or E, an optional sign, one digit or
    more. *)
Definition number (s : list byte) : option (list byte * list byte) :=
  let '(sign, s1) :=
    match s with
    | b :: r => if ch "-" b then ([b], r) else ([], s)
    | [] => ([], s)
    end in
  let '(int, s2) := digits s1 in
  match int with
  | [] => None
  | d :: ds =>
      if ch "0" d && negb (Nat.eqb (List.length ds) 0) then None
      else
        match
          match s2 with
          | p :: r =>
              if ch "." p then
                let '(frac, s3) := digits r in
                match frac with
                | [] => None
                | _ => Some (p :: frac, s3)
                end
              else Some ([], s2)
          | [] => Some ([], s2)
          end
        with
        | None => None
        | Some (frac, s3) =>
            match s3 with
            | e :: r =>
                if ch "e" e || ch "E" e then
                  let '(esign, s4) :=
                    match r with
                    | b :: r' =>
                        if ch "+" b || ch "-" b then ([b], r') else ([], r)
                    | [] => ([], r)
                    end in
                  let '(exp, s5) := digits s4 in
                  match exp with
                  | [] => None
                  | _ => Some (sign ++ int ++ frac ++ e :: esign ++ exp, s5)
                  end
                else Some (sign ++ int ++ frac, s3)
            | [] => Some (sign ++ int ++ frac, s3)
            end
        end
  end.

Fixpoint strip_prefix (w s : list byte) : option (list byte) :=
  match w, s with
  | [], _ => Some s
  | c :: w, b :: s => if Byte.eqb b c then strip_prefix w s else None
  | _ :: _, [] => None
  end.

Definition literal (word : string) (v : value) (s : list byte)
  : option (value * list byte) :=
  match strip_prefix (map byte_of_ascii (list_ascii_of_string word)) s with
  | Some rest => Some (v, rest)
  | None => None
  end.

(** One value, then the elements of an array after its bracket, the members
    of an object after its brace.  Every call spends one unit of [fuel] and
    a value takes at least one byte for every two units, so
    [2 * length + 2] units never run out ([JSON_parse_fuel]). *)
Fixpoint parse_value (fuel : nat) (s : list byte) : option (value * list byte) :=
  match fuel with
  | O => None
  | S fuel =>
      match skip_ws s with
      | [] => None
      | b :: r =>
          if ch "{" b then
            match skip_ws r with
            | c :: r1 =>
                if ch "}" c then Some (Object [], r1)
                else parse_members fuel (c :: r1) []
            | [] => None
            end
          else if ch "[" b then
            match skip_ws r with
            | c :: r1 =>
                if ch "]" c then Some (Array [], r1)
                else parse_elements fuel (c :: r1) []
            | [] => None
            end
          else if ch quote b then
            match string_body r with
            | Some (body, rest) => Some (String body, rest)
            | None => None
            end
          else if ch "t" b then literal "true" (Bool true) (b :: r)
          else if ch "f" b then literal "false" (Bool false) (b :: r)
          else if ch "n" b then literal "null" Null (b :: r)
          else
            match number (b :: r) with
            | Some (lexeme, rest) => Some (Number lexeme, rest)
            | None => None
            end
      end
  end
with parse_elements (fuel : nat) (s : list byte) (acc : list value)
  : option (value * list byte) :=
  match fuel with
  | O => None
  | S fuel =>
      match parse_value fuel s with
      | Some (v, r) =>
          match skip_ws r with
          | c :: r1 =>
              if ch "," c then parse_elements fuel r1 (acc ++ [v])
              else if ch "]" c then Some (Array (acc ++ [v]), r1)
              else None
          | [] => None
          end
      | None => None
      end
  end
with parse_members (fuel : nat) (s : list byte) (acc : list (list byte * value))
  : option (value * list byte) :=
  match fuel with
  | O => None
  | S fuel =>
      match skip_ws s with
      | q :: r =>
          if ch quote q then
            match string_body r with
            | Some (key, r1) =>
                match skip_ws r1 with
                | c :: r2 =>
                    if ch ":" c then
                      match parse_value fuel r2 with
                      | Some (v, r3) =>
                          match skip_ws r3 with
                          | d :: r4 =>
                              if ch "," d
                              then parse_members fuel r4 (acc ++ [(key, v)])
                              else if ch "}" d
                              then Some (Object (acc ++ [(key, v)]), r4)
                              else None
                          | [] => None
                          end
                      | None => None
                      end
                    else None
                | [] => None
                end
            | None => None
            end
          else None
      | [] => None
      end
  end.

(** [JSON.parse]: one value between white space, nothing after it. *)
Definition parse (text : list byte) : completion value :=
  match parse_value (2 * List.length text + 2) text with
  | Some (v, rest) =>
      match skip_ws rest with
      | [] => Return v
      | _ :: _ => Throw SyntaxError
      end
  | None => Throw SyntaxError
  end.

(** The bytes of an ASCII text, with ['] standing for the double quote. *)
Definition utf8 (text : string) : list byte :=
  map (fun c => byte_of_ascii (if Ascii.eqb c "'" then quote else c))
      (list_ascii_of_string text).

End JSON.

(** ** parseGLB *)

(** The two errors [parseGLB] raises itself, and the one its 32-bit reads
    raise when the four bytes are not all inside the buffer. *)
Definition InvalidSignature : JsError :=
  Error "Invalid GLB file: missing glTF magic".
Definition MissingMetadataChunk : JsError :=
  Error "Invalid GLB file: first chunk is not JSON".
Definition TruncatedContainer : JsError := RangeError.

Definition JSON_TAG : Z := 0x4e4f534a.
Definition BIN_TAG : Z := 0x004e4942.

Definition magic (glbBuffer : Buffer.t) : string :=
  Buffer.toString_ascii (Buffer.subarray glbBuffer 0 4).

Definition parseGLB (glbBuffer : Buffer.t)
  : completion (JSON.value * option Buffer.t) :=
  if negb (String.eqb (magic glbBuffer) "glTF") then Throw InvalidSignature
  else
    totalLength ← Buffer.readUInt32LE glbBuffer 8;
    let offset := 12 in
    jsonChunkLength ← Buffer.readUInt32LE glbBuffer offset;
    jsonChunkType ← Buffer.readUInt32LE glbBuffer (offset + 4);
    if negb (jsonChunkType =? JSON_TAG) then Throw MissingMetadataChunk
    else
      let jsonData :=
        Buffer.subarray glbBuffer (offset + 8) (offset + 8 + jsonChunkLength) in
      gltfData ← JSON.parse (Buffer.bytes jsonData);
      let offset := offset + (8 + jsonChunkLength) in
      if offset <? totalLength then
        binaryChunkLength ← Buffer.readUInt32LE glbBuffer offset;
        binaryChunkType ← Buffer.readUInt32LE glbBuffer (offset + 4);
        if binaryChunkType =? BIN_TAG then
          mret (gltfData,
                Some (Buffer.subarray glbBuffer
                        (offset + 8) (offset + 8 + binaryChunkLength)))
        else mret (gltfData, None)
      else mret (gltfData, None).

(** Little-endian 32-bit fields, for building containers in examples. *)
Definition u32 (z : Z) : list byte := le_split 4 z.

Definition glb (sig : list byte) (version totalLength : Z)
    (chunks : list (Z * Z * list byte)) : Buffer.t :=
  Buffer.of_bytes
    (sig ++ u32 version ++ u32 totalLength
       ++ concat (map (fun '(len, tag, data) => u32 len ++ u32 tag ++ data) chunks)).

(** ** Typed arrays *)

(** A decoded number: an integer, or the value of a 32-bit float. *)
Inductive number : Type :=
  | Int (z : Z)
  | Float (f : spec_float).

Inductive TypedArray : Type :=
  | Int8Array
  | Uint8Array
  | Int16Array
  | Uint16Array
  | Uint32Array
  | Float32Array.

Definition BYTES_PER_ELEMENT (k : TypedArray) : nat :=
  match k with
  | Int8Array | Uint8Array => 1
  | Int16Array | Uint16Array => 2
  | Uint32Array | Float32Array => 4
  end.

(** Two's complement reading of an unsigned [width]-bit word. *)
Definition signed (width : Z) (w : Z) : Z :=
  if w <? 2 ^ (width - 1) then w else w - 2 ^ width.

(** IEEE 754 binary32: sign bit 31, exponent bits 30..23, fraction bits 22..0. *)
Definition float32 (w : Z) : spec_float :=
  let s := Z.testbit w 31 in
  let e := Z.land (Z.shiftr w 23) 255 in
  let m := Z.land w (2 ^ 23 - 1) in
  if e =? 0 then
    if m =? 0 then S754_zero s else S754_finite s (Z.to_pos m) (-149)
  else if e =? 255 then
    if m =? 0 then S754_infinity s else S754_nan
  else S754_finite s (Z.to_pos (m + 2 ^ 23)) (e - 150).

(** The element stored in [BYTES_PER_ELEMENT k] bytes, lowest byte first. *)
Definition element (k : TypedArray) (bs : list byte) : number :=
  let w := le_combine bs in
  match k with
  | Int8Array => Int (signed 8 w)
  | Uint8Array => Int w
  | Int16Array => Int (signed 16 w)
  | Uint16Array => Int w
  | Uint32Array => Int w
  | Float32Array => Float (float32 w)
  end.

(** [new T(arrayBuffer)] followed by [Array.from]: the byte length has to
    be a multiple of the element size; element [i] lies at byte
    [i * BYTES_PER_ELEMENT]. *)
Definition new_TypedArray (k : TypedArray) (arrayBuffer : list byte)
  : completion (list number) :=
  let n := BYTES_PER_ELEMENT k in
  if (List.length arrayBuffer mod n =? 0)%nat then
    mret (map (fun i => element k (take n (drop (i * n) arrayBuffer)))
              (seq 0 (List.length arrayBuffer / n)))
  else Throw RangeError.

(** ** The lookup tables *)

Module ComponentType.
Record t : Type := mk { name : string; size : Z; array : TypedArray }.
End ComponentType.

Definition COMPONENT_TYPES (code : Z) : option ComponentType.t :=
  if code =? 5120 then Some (ComponentType.mk "BYTE" 1 Int8Array)
  else if code =? 5121 then Some (ComponentType.mk "UNSIGNED_BYTE" 1 Uint8Array)
  else if code =? 5122 then Some (ComponentType.mk "SHORT" 2 Int16Array)
  else if code =? 5123 then Some (ComponentType.mk "UNSIGNED_SHORT" 2 Uint16Array)
  else if code =? 5125 then Some (ComponentType.mk "UNSIGNED_INT" 4 Uint32Array)
  else if code =? 5126 then Some (ComponentType.mk "FLOAT" 4 Float32Array)
  else None.

(** A shape that names a property every object inherits, [constructor]
    for one, looks up a function and not [undefined]; as a factor that is
    [NaN] as well, and nothing else in the decoder tells the two apart. *)
Definition TYPE_SIZES (shape : string) : option nat :=
  if String.eqb shape "SCALAR" then Some 1%nat
  else if String.eqb shape "VEC2" then Some 2%nat
  else if String.eqb shape "VEC3" then Some 3%nat
  else if String.eqb shape "VEC4" then Some 4%nat
  else if String.eqb shape "MAT2" then Some 4%nat
  else if String.eqb shape "MAT3" then Some 9%nat
  else if String.eqb shape "MAT4" then Some 16%nat
  else None.

Definition TRUNCATE_LIMIT : nat := 20.

(** A table entry as an operand of [*]: [undefined] gives [NaN]. *)
Definition to_number (typeSize : option nat) : jsnum :=
  match typeSize with
  | Some n => Fin (Z.of_nat n)
  | None => NaN
  end.

(** ** Descriptors and the decoded result *)

Module Accessor.
Record t : Type := mk {
  componentType : Z;
  type : string;
  count : Z;
  byteOffset : option Z;
  bufferView : option Z;
  min : option JSON.value;
  max : option JSON.value
}.
End Accessor.

Module BufferView.
Record t : Type := mk { byteOffset : option Z }.
End BufferView.

(** One entry of [groupedValues]: [values[i]] or [values.slice(i, i + typeSize)]. *)
Inductive grouped : Type :=
  | Bare (v : number)
  | Group (vs : list number).

Definition components (g : grouped) : list number :=
  match g with
  | Bare v => [v]
  | Group vs => vs
  end.

(** The object [extractAccessorData] returns; [None] is a property the
    object does not have.  [min] and [max] are set from fields that may
    themselves be [undefined]. *)
Module DecodedAccessor.
Record t : Type := mk {
  error : option string;
  type : option string;
  componentType : option string;
  count : option Z;
  min : option (option JSON.value);
  max : option (option JSON.value);
  values : option (list grouped);
  truncatedValues : option (list grouped)
}.

Definition set_values (v : list grouped) (r : t) : t :=
  mk (error r) (type r) (componentType r) (count r) (min r) (max r)
     (Some v) (truncatedValues r).

Definition set_truncatedValues (v : list grouped) (r : t) : t :=
  mk (error r) (type r) (componentType r) (count r) (min r) (max r)
     (values r) (Some v).
End DecodedAccessor.

(** ** extractAccessorData *)

(** The template literal [`${n}`] for an integer below 2^53 in size, where
    it is the decimal digits of the integer.  A larger number prints
    rounded, and from 10^21 on in exponent form; nothing stated below
    relies on the text of such a number. *)
Definition show (n : Z) : string := NilZero.string_of_int (Z.to_int n).

Definition elementSize (componentType : ComponentType.t) (typeSize : option nat)
  : jsnum :=
  jsmul (ComponentType.size componentType) (to_number typeSize).

Definition byteOffset (accessor : Accessor.t) (bufferView : BufferView.t) : Z :=
  or_zero (BufferView.byteOffset bufferView)
  + or_zero (Accessor.byteOffset accessor).

Definition byteLength (accessor : Accessor.t) (elementSize : jsnum) : jsnum :=
  jsmul (Accessor.count accessor) elementSize.

Definition rawBytes (binaryBuffer : Buffer.t) (byteOffset : Z) (byteLength : jsnum)
  : Buffer.t :=
  Buffer.subarray binaryBuffer byteOffset (jsadd byteOffset byteLength).

Definition arrayBuffer (rawBytes : Buffer.t) : list byte :=
  Buffer.ArrayBuffer_slice (Buffer.buffer rawBytes)
    (Buffer.byteOffset rawBytes)
    (Buffer.byteOffset rawBytes + Buffer.length rawBytes).

(** The grouping loop, [for (let i = 0; i < values.length; i += typeSize)].
    Every entry of [TYPE_SIZES] is positive, so [i] grows in every round and
    [List.length values] rounds are enough; with [typeSize] undefined [i]
    becomes [NaN] after the first round and the loop ends. *)
Fixpoint group_loop (fuel : nat) (typeSize : option nat) (values : list number)
    (i : nat) (groupedValues : list grouped) : list grouped :=
  match fuel with
  | O => groupedValues
  | S fuel =>
      match values !! i with
      | None => groupedValues
      | Some v =>
          match typeSize with
          | Some n =>
              let g :=
                if (n =? 1)%nat then Bare v
                else Group (take n (drop i values)) in
              group_loop fuel typeSize values (i + n) (groupedValues ++ [g])
          | None => groupedValues ++ [Group []]
          end
      end
  end.

Definition groupedValues (typeSize : option nat) (values : list number)
  : list grouped :=
  group_loop (List.length values) typeSize values 0 [].

(** Lines 76 to 98: from the byte window to [groupedValues].  Reading
    [bufferView.byteOffset] throws when the buffer view is [undefined]. *)
Definition decodeGroups (componentType : ComponentType.t) (typeSize : option nat)
    (accessor : Accessor.t) (bufferView : option BufferView.t)
    (binaryBuffer : Buffer.t) : completion (list grouped) :=
  let elementSize := elementSize componentType typeSize in
  match bufferView with
  | None => Throw TypeError
  | Some bufferView =>
      let byteOffset := byteOffset accessor bufferView in
      let byteLength := byteLength accessor elementSize in
      let rawBytes := rawBytes binaryBuffer byteOffset byteLength in
      let arrayBuffer := arrayBuffer rawBytes in
      values ← new_TypedArray (ComponentType.array componentType) arrayBuffer;
      mret (groupedValues typeSize values)
  end.

Definition extractAccessorData (accessor : Accessor.t)
    (bufferView : option BufferView.t) (binaryBuffer : Buffer.t)
  : completion DecodedAccessor.t :=
  let componentType := COMPONENT_TYPES (Accessor.componentType accessor) in
  let typeSize := TYPE_SIZES (Accessor.type accessor) in
  match componentType with
  | None =>
      mret (DecodedAccessor.mk
              (Some ("Unknown component type: "
                       +:+ show (Accessor.componentType accessor)))
              None None None None None None None)
  | Some componentType =>
      groupedValues ←
        decodeGroups componentType typeSize accessor bufferView binaryBuffer;
      let wasTruncated := (TRUNCATE_LIMIT <? List.length groupedValues)%nat in
      let finalValues :=
        if wasTruncated then take TRUNCATE_LIMIT groupedValues
        else groupedValues in
      let result :=
        DecodedAccessor.mk None
          (Some (Accessor.type accessor))
          (Some (ComponentType.name componentType))
          (Some (Accessor.count accessor))
          (Some (Accessor.min accessor))
          (Some (Accessor.max accessor))
          None None in
      mret (if wasTruncated
            then DecodedAccessor.set_truncatedValues finalValues result
            else DecodedAccessor.set_values finalValues result)
  end.

(** ** The component type under any key

    [accessor.componentType] is what [JSON.parse] made of the document: a
    number, or another value, which the lookup of line 69 turns into a
    text.  [COMPONENT_TYPES] is a plain object.  Its six entries have texts
    for keys, so the text 5120 finds what the number 5120 finds; and a
    lookup finds as well the members every object inherits from
    [Object.prototype], functions and the prototype itself, all of them
    truthy and none with a [size] or an [array]. *)

Inductive ComponentKey : Type :=
  | CodeKey (code : Z)
  | NameKey (name : string).

(** The template literal [`${accessor.componentType}`]. *)
Definition key_text (key : ComponentKey) : string :=
  match key with
  | CodeKey code => show code
  | NameKey name => name
  end.

Definition recognized_codes : list Z := [5120; 5121; 5122; 5123; 5125; 5126].

Definition Object_prototype_names : list string :=
  ["constructor"; "__proto__"; "hasOwnProperty"; "isPrototypeOf";
   "propertyIsEnumerable"; "toLocaleString"; "toString"; "valueOf";
   "__defineGetter__"; "__defineSetter__"; "__lookupGetter__";
   "__lookupSetter__"]%string.

(** The code whose entry a text finds. *)
Definition own_code (name : string) : option Z :=
  List.find (fun code => String.eqb (show code) name) recognized_codes.

(** What [COMPONENT_TYPES[key]] evaluates to: an entry of the table, a
    member inherited from [Object.prototype], or [undefined]. *)
Inductive member : Type :=
  | Entry (componentType : ComponentType.t)
  | Inherited (name : string)
  | Undefined.

Definition COMPONENT_TYPES_at (key : ComponentKey) : member :=
  match key with
  | CodeKey code =>
      match COMPONENT_TYPES code with
      | Some componentType => Entry componentType
      | None => Undefined
      end
  | NameKey name =>
      match own_code name ≫= COMPONENT_TYPES with
      | Some componentType => Entry componentType
      | None =>
          if bool_decide (name ∈ Object_prototype_names) then Inherited name
          else Undefined
      end
  end.

(** [!componentType]: of the three, only [undefined] is falsy. *)
Definition falsy (componentType : member) : bool :=
  match componentType with
  | Undefined => true
  | Entry _ | Inherited _ => false
  end.

(** [componentType.size] as a number in a product, [componentType.array]
    and [componentType.name].  The name of an inherited member is not
    looked at: line 85 throws before line 106 is reached. *)
Definition member_size (componentType : member) : jsnum :=
  match componentType with
  | Entry componentType => Fin (ComponentType.size componentType)
  | Inherited _ | Undefined => NaN
  end.

Definition member_array (componentType : member) : option TypedArray :=
  match componentType with
  | Entry componentType => Some (ComponentType.array componentType)
  | Inherited _ | Undefined => None
  end.

Definition member_name (componentType : member) : option string :=
  match componentType with
  | Entry componentType => Some (ComponentType.name componentType)
  | Inherited _ | Undefined => None
  end.

(** [extractAccessorData] on an accessor whose [componentType] is the key
    and whose other fields are those of [accessor], line by line.  An
    inherited member passes the test of line 72 as an entry of the table
    does; with it the element size is [NaN], the subarray of line 81 is
    taken all the same, and [componentType.array] is [undefined], which
    [new] refuses with a type error. *)
Definition extractAccessorData_keyed (key : ComponentKey)
    (accessor : Accessor.t) (bufferView : option BufferView.t)
    (binaryBuffer : Buffer.t) : completion DecodedAccessor.t :=
  let componentType := COMPONENT_TYPES_at key in
  let typeSize := TYPE_SIZES (Accessor.type accessor) in
  if falsy componentType then
    mret (DecodedAccessor.mk
            (Some ("Unknown component type: " +:+ key_text key))
            None None None None None None None)
  else
    let elementSize := jsmul (member_size componentType) (to_number typeSize) in
    match bufferView with
    | None => Throw TypeError
    | Some bufferView =>
        let byteOffset := byteOffset accessor bufferView in
        let byteLength := byteLength accessor elementSize in
        let rawBytes := rawBytes binaryBuffer byteOffset byteLength in
        let arrayBuffer := arrayBuffer rawBytes in
        match member_array componentType with
        | None => Throw TypeError
        | Some array =>
            values ← new_TypedArray array arrayBuffer;
            let groupedValues := groupedValues typeSize values in
            let wasTruncated :=
              (TRUNCATE_LIMIT <? List.length groupedValues)%nat in
            let finalValues :=
              if wasTruncated then take TRUNCATE_LIMIT groupedValues
              else groupedValues in
            let result :=
              DecodedAccessor.mk None
                (Some (Accessor.type accessor))
                (member_name componentType)
                (Some (Accessor.count accessor))
                (Some (Accessor.min accessor))
                (Some (Accessor.max accessor))
                None None in
            mret (if wasTruncated
                  then DecodedAccessor.set_truncatedValues finalValues result
                  else DecodedAccessor.set_values finalValues result)
        end
    end.

(** ** The walk over a primitive's attributes and indices *)

Module Gltf.
Record t : Type := mk {
  accessors : list Accessor.t;
  bufferViews : list BufferView.t
}.
End Gltf.

Module Primitive.
Record t : Type := mk {
  attributes : list (string * Z);   (* [Object.entries(primitive.attributes)] *)
  indices : option Z
}.
End Primitive.

(** [array[i]] for an integer [i]. *)
Definition at_index {A} (l : list A) (i : Z) : option A :=
  if i <? 0 then None else l !! Z.to_nat i.

(** The three lines both walks share: look the accessor up, look its buffer
    view up, decode.  Reading [accessor.bufferView] throws when the accessor
    is [undefined]; an [undefined] buffer view is passed on. *)
Definition extractAccessor (gltfData : Gltf.t) (binaryBuffer : Buffer.t)
    (accessorIndex : Z) : completion DecodedAccessor.t :=
  match at_index (Gltf.accessors gltfData) accessorIndex with
  | None => Throw TypeError
  | Some accessor =>
      let bufferView :=
        Accessor.bufferView accessor ≫= at_index (Gltf.bufferViews gltfData) in
      extractAccessorData accessor bufferView binaryBuffer
  end.

(** [object[name] = data] on a plain object, of which the map keeps the own
    properties.  The name [__proto__] reaches the setter that
    [Object.prototype] has for it: the data, an object, becomes the
    prototype and no property is added.  Every other name gets a property
    of its own. *)
Definition assign (name : string) (data : DecodedAccessor.t)
    (object : gmap string DecodedAccessor.t) : gmap string DecodedAccessor.t :=
  if String.eqb name "__proto__" then object else <[name := data]> object.

Fixpoint forEach_attribute (gltfData : Gltf.t) (binaryBuffer : Buffer.t)
    (entries : list (string * Z)) (attributes : gmap string DecodedAccessor.t)
  : completion (gmap string DecodedAccessor.t) :=
  match entries with
  | [] => mret attributes
  | (attributeName, accessorIndex) :: entries =>
      data ← extractAccessor gltfData binaryBuffer accessorIndex;
      forEach_attribute gltfData binaryBuffer entries
        (assign attributeName data attributes)
  end.

Definition extractPrimitive (gltfData : Gltf.t) (binaryBuffer : Buffer.t)
    (primitive : Primitive.t)
  : completion (gmap string DecodedAccessor.t * option DecodedAccessor.t) :=
  attributes ← forEach_attribute gltfData binaryBuffer
                  (Primitive.attributes primitive) ∅;
  match Primitive.indices primitive with
  | Some accessorIndex =>
      data ← extractAccessor gltfData binaryBuffer accessorIndex;
      mret (attributes, Some data)
  | None => mret (attributes, None)
  end.

(** ** extractBinaryData

    The [.glb] branch of the first half, on the bytes read from the file,
    and the second half, which builds the report from the document and the
    binary buffer.  The document is read at the types the glTF schema gives
    its fields; a field that is absent or [undefined] is [None]. *)

Definition MissingBinaryData : JsError :=
  Error "GLB file does not contain binary data".

(** Lines 129 to 136.  A buffer is an object and so never falsy: the test
    [!parsed.binaryBuffer] holds for [null] only. *)
Definition loadGLB (glbBuffer : Buffer.t) : completion (JSON.value * Buffer.t) :=
  parsed ← parseGLB glbBuffer;
  match parsed.2 with
  | None => Throw MissingBinaryData
  | Some binaryBuffer => mret (parsed.1, binaryBuffer)
  end.

Module Asset.
Record t : Type := mk { generator : option string; version : option string }.
End Asset.

Module Pbr.
Record t : Type := mk {
  baseColorFactor : option JSON.value;
  metallicFactor : option JSON.value;
  roughnessFactor : option JSON.value
}.
End Pbr.

Module Material.
Record t : Type := mk {
  name : option string;
  doubleSided : option bool;
  pbrMetallicRoughness : option Pbr.t
}.
End Material.

(** A primitive of a mesh: the fields the decoding walk reads, and
    [material]. *)
Module MeshPrimitive.
Record t : Type := mk { walk : Primitive.t; material : option Z }.
End MeshPrimitive.

Module Mesh.
Record t : Type := mk {
  name : option string;
  primitives : option (list MeshPrimitive.t)
}.
End Mesh.

Module Document.
Record t : Type := mk {
  gltf : Gltf.t;
  asset : option Asset.t;
  meshes : option (list Mesh.t);
  materials : option (list Material.t)
}.
End Document.

Module MaterialEntry.
Record t : Type := mk {
  index : nat;
  name : option string;
  doubleSided : option bool;
  baseColor : option JSON.value;
  metallic : option JSON.value;
  roughness : option JSON.value
}.
End MaterialEntry.

Module PrimitiveEntry.
Record t : Type := mk {
  materialIndex : option Z;
  materialName : string;
  attributes : gmap string DecodedAccessor.t;
  indices : option DecodedAccessor.t
}.
End PrimitiveEntry.

Module MeshEntry.
Record t : Type := mk { name : option string; primitives : list PrimitiveEntry.t }.
End MeshEntry.

Module Metadata.
Record t : Type := mk {
  generator : string;
  version : string;
  totalBytes : nat;
  meshCount : nat;
  materialCount : nat;
  accessorCount : nat;
  truncationLimit : nat
}.
End Metadata.

Module Report.
Record t : Type := mk {
  metadata : Metadata.t;
  materials : list MaterialEntry.t;
  meshes : list MeshEntry.t
}.
End Report.

(** [x || fallback] on an optional text: [undefined] and the empty text
    are falsy. *)
Definition or_text (x : option string) (fallback : string) : string :=
  match x with
  | Some EmptyString | None => fallback
  | Some s => s
  end.

(** [array.map(f)] with a callback that may throw: the elements in order,
    up to the first throw. *)
Fixpoint mapM {A B} (f : A → completion B) (l : list A) : completion (list B) :=
  match l with
  | [] => mret []
  | x :: l => y ← f x; ys ← mapM f l; mret (y :: ys)
  end.

(** Lines 176 to 179. *)
Definition materialName (gltfData : Document.t) (material : option Z) : string :=
  match material, Document.materials gltfData with
  | Some i, Some materials =>
      or_text (at_index materials i ≫= Material.name) "Unknown Material"
  | _, _ => "No Material"
  end.

(** Lines 173 to 202, the callback of [mesh.primitives.map]. *)
Definition reportPrimitive (gltfData : Document.t) (binaryBuffer : Buffer.t)
    (primitive : MeshPrimitive.t) : completion PrimitiveEntry.t :=
  let name := materialName gltfData (MeshPrimitive.material primitive) in
  decodedData ← extractPrimitive (Document.gltf gltfData) binaryBuffer
                   (MeshPrimitive.walk primitive);
  mret (PrimitiveEntry.mk (MeshPrimitive.material primitive) name
          decodedData.1 decodedData.2).

(** Lines 163 to 170, the callback of [materials.map]. *)
Definition reportMaterial (index : nat) (material : Material.t) : MaterialEntry.t :=
  let pbr := Material.pbrMetallicRoughness material in
  MaterialEntry.mk index (Material.name material) (Material.doubleSided material)
    (pbr ≫= Pbr.baseColorFactor) (pbr ≫= Pbr.metallicFactor)
    (pbr ≫= Pbr.roughnessFactor).

(** Lines 153 to 206, on the document and the buffer loaded before. *)
Definition extractBinaryData (gltfData : Document.t) (binaryBuffer : Buffer.t)
  : completion Report.t :=
  let meshes := default [] (Document.meshes gltfData) in
  let materials := default [] (Document.materials gltfData) in
  let metadata :=
    Metadata.mk
      (or_text (Document.asset gltfData ≫= Asset.generator) "Unknown")
      (or_text (Document.asset gltfData ≫= Asset.version) "Unknown")
      (Buffer.length binaryBuffer)
      (List.length meshes)
      (List.length materials)
      (List.length (Gltf.accessors (Document.gltf gltfData)))
      TRUNCATE_LIMIT in
  let materialEntries := imap reportMaterial materials in
  meshEntries ←
    mapM (fun mesh =>
            primitives ← mapM (reportPrimitive gltfData binaryBuffer)
                           (default [] (Mesh.primitives mesh));
            mret (MeshEntry.mk (Mesh.name mesh) primitives))
         meshes;
  mret (Report.mk metadata materialEntries meshEntries).

(** ** Notions the statements use *)

(** The result object of a decode that grouped its values into [groups]. *)
Definition decoded (accessor : Accessor.t) (componentType : ComponentType.t)
    (groups : list grouped) : DecodedAccessor.t :=
  let wasTruncated := (TRUNCATE_LIMIT <? List.length groups)%nat in
  DecodedAccessor.mk None
    (Some (Accessor.type accessor))
    (Some (ComponentType.name componentType))
    (Some (Accessor.count accessor))
    (Some (Accessor.min accessor))
    (Some (Accessor.max accessor))
    (if wasTruncated then None else Some groups)
    (if wasTruncated then Some (take TRUNCATE_LIMIT groups) else None).

(** Component [i] of the data that starts at byte [start], and element [e]
    of [typeSize] components: a bare number when [typeSize] is 1, else the
    components in the order the buffer has them. *)
Definition component_at (k : TypedArray) (bytes : list byte) (start i : nat)
  : number :=
  element k (take (BYTES_PER_ELEMENT k) (drop (start + i * BYTES_PER_ELEMENT k) bytes)).

Definition element_at (k : TypedArray) (bytes : list byte) (start typeSize e : nat)
  : grouped :=
  if (typeSize =? 1)%nat then Bare (component_at k bytes start e)
  else Group (map (fun j => component_at k bytes start (e * typeSize + j))
                  (seq 0 typeSize)).

(** The shape of one group: a bare number, or [typeSize] numbers. *)
Definition group_shape (typeSize : nat) (g : grouped) : Prop :=
  if (typeSize =? 1)%nat then ∃ v, g = Bare v
  else ∃ vs, g = Group vs ∧ List.length vs = typeSize.

(** The result that carries the error of an unknown component type and
    nothing else. *)
Definition unknown_component_type (code : Z) : DecodedAccessor.t :=
  DecodedAccessor.mk (Some ("Unknown component type: " +:+ show code))
    None None None None None None None.

(** The unsigned 32-bit number in the four bytes at [offset], lowest byte
    first. *)
Definition u32_at (bytes : list byte) (offset : nat) : Z :=
  le_combine (take 4 (drop offset bytes)).

(** Following the words of the spec, sections 3 and 6: the declared total
    length agrees with the chunk table when it is the end of the last
    chunk the table encodes, byte [20 + len1] with one chunk and byte
    [28 + len1 + len2] with a second chunk header inside the buffer. *)
Definition total_length_consistent (b : Buffer.t) : bool :=
  let totalLength := u32_at (Buffer.bytes b) 8 in
  let len1 := u32_at (Buffer.bytes b) 12 in
  let len2 := u32_at (Buffer.bytes b) (Z.to_nat (20 + len1)) in
  (totalLength =? 20 + len1)
  || ((28 + len1 <=? Z.of_nat (Buffer.length b))
      && (totalLength =? 28 + len1 + len2)).

(** ** Descriptors and containers of the examples *)

Definition bytes_upto (n : nat) : list byte :=
  map (fun i => byte.of_Z (Z.of_nat i)) (seq 0 n).

Definition vec3_float_2 : Accessor.t :=
  Accessor.mk 5126 "VEC3" 2 (Some 4) (Some 0) None None.

Definition vec2_byte (count : Z) : Accessor.t :=
  Accessor.mk 5120 "VEC2" count None (Some 0) None None.

Definition vec2_byte_21_decoded : DecodedAccessor.t :=
  Eval vm_compute in
    decoded (vec2_byte 21) (ComponentType.mk "BYTE" 1 Int8Array)
      (map (element_at Int8Array (bytes_upto 64) 0 2) (seq 0 21)).

Definition unknown_9999 : Accessor.t :=
  Accessor.mk 9999 "VEC3" 3 None (Some 0) None None.

(** The accessor of the byte-offset example: one scalar float at accessor
    offset 8 in a buffer view at offset 100. *)
Definition float_at_8 : Accessor.t :=
  Accessor.mk 5126 "SCALAR" 1 (Some 8) (Some 0) None None.
Definition view_at_100 : BufferView.t := BufferView.mk (Some 100).

(** One scalar float asked from a buffer of three bytes: the window
    [0, 4) runs past the end, the clamped window has three bytes, and the
    typed array cannot be built on it. *)
Definition float_scalar_1 : Accessor.t :=
  Accessor.mk 5126 "SCALAR" 1 None (Some 0) None None.
Definition three_bytes : Buffer.t := Buffer.of_bytes [x00; x00; x80].

Definition vec3_short_3 : Accessor.t :=
  Accessor.mk 5122 "VEC3" 3 None (Some 0) None None.


(** A container whose four signature bytes are those of [glTF] with the
    high bit set, followed by a well-formed header and metadata chunk. *)
Definition high_bit_signature : Buffer.t :=
  glb [xe7; xec; xd4; xc6] 2 22 [(2, JSON_TAG, JSON.utf8 "{}")].

Definition binary_chunk_first : Buffer.t :=
  glb (JSON.utf8 "glTF") 2 23 [(3, BIN_TAG, [x01; x02; x03])].

(** A container whose binary chunk declares 300 bytes and holds 3: the
    buffer ends at byte 33, the declared data at byte 330. *)
Definition long_declared_binary : Buffer.t :=
  glb (JSON.utf8 "glTF") 2 50
    [(2, JSON_TAG, JSON.utf8 "{}"); (300, BIN_TAG, [x01; x02; x03])].

(** A container whose metadata chunk declares 200 bytes and holds 2. *)
Definition long_declared_metadata : Buffer.t :=
  glb (JSON.utf8 "glTF") 2 22 [(200, JSON_TAG, JSON.utf8 "{}")].

(** A container of 33 bytes, a metadata chunk and a binary chunk, that
    declares a total length of 0. *)
Definition total_length_zero : Buffer.t :=
  glb (JSON.utf8 "glTF") 2 0
    [(2, JSON_TAG, JSON.utf8 "{}"); (3, BIN_TAG, [x01; x02; x03])].

Definition mat3_ubyte (count : Z) : Accessor.t :=
  Accessor.mk 5121 "MAT3" count None (Some 0) None None.

(** A view of three bytes in the middle of a store of seven. *)
Definition view_in_store : Buffer.t :=
  Buffer.mk [x0a; x0b] [x01; x02; x03] [x0c; x0d].

Definition scalar_ubyte_3 : Accessor.t :=
  Accessor.mk 5121 "SCALAR" 3 None (Some 0) None None.

Definition scalar_ushort_no_view : Accessor.t :=
  Accessor.mk 5123 "SCALAR" 1 None None None None.

(** A document with one float accessor and one accessor of an unknown
    component type, both in buffer view 0. *)
Definition two_accessors : Gltf.t :=
  Gltf.mk [float_scalar_1; unknown_9999] [BufferView.mk None].

(** The layout [parseGLB] reads, written out: the signature, a version, the
    length of the whole file, the metadata chunk and the binary chunk, each
    chunk with its length and its tag before its data; and the same
    without a binary chunk. *)
Definition container (version : Z) (metadata binary : list byte) : Buffer.t :=
  glb (JSON.utf8 "glTF") version
    (28 + Z.of_nat (List.length metadata) + Z.of_nat (List.length binary))
    [(Z.of_nat (List.length metadata), JSON_TAG, metadata);
     (Z.of_nat (List.length binary), BIN_TAG, binary)].

Definition metadata_container (version : Z) (metadata : list byte) : Buffer.t :=
  glb (JSON.utf8 "glTF") version (20 + Z.of_nat (List.length metadata))
    [(Z.of_nat (List.length metadata), JSON_TAG, metadata)].

(** A container whose second chunk has a tag that is not the binary one. *)
Definition other_second_chunk : Buffer.t :=
  glb (JSON.utf8 "glTF") 2 33
    [(2, JSON_TAG, JSON.utf8 "{}"); (3, 0x12345678, [x01; x02; x03])].

(** A primitive decodes when every attribute entry and the accessor of the
    indices, if there is one, decode without a throw. *)
Definition primitive_decodes (gltfData : Gltf.t) (binaryBuffer : Buffer.t)
    (primitive : Primitive.t) : Prop :=
  Forall (fun entry =>
            returns (extractAccessor gltfData binaryBuffer entry.2) = true)
         (Primitive.attributes primitive)
  ∧ ∀ accessorIndex,
      Primitive.indices primitive = Some accessorIndex →
      returns (extractAccessor gltfData binaryBuffer accessorIndex) = true.

(** A document of one mesh with one primitive: a position attribute on
    accessor 0, indices on accessor 1, and a material that is not there. *)
Definition one_mesh_document : Document.t :=
  Document.mk
    (Gltf.mk [scalar_ubyte_3; unknown_9999] [BufferView.mk None])
    (Some (Asset.mk (Some "X"%string) None))
    (Some [Mesh.mk (Some "cube"%string)
             (Some [MeshPrimitive.mk
                      (Primitive.mk [("POSITION"%string, 0)] (Some 1))
                      (Some 0)])])
    None.

(** The same with the indices on an accessor the document does not have. *)
Definition bad_index_document : Document.t :=
  Document.mk
    (Gltf.mk [scalar_ubyte_3] [BufferView.mk None])
    None
    (Some [Mesh.mk None
             (Some [MeshPrimitive.mk
                      (Primitive.mk [("POSITION"%string, 0)] (Some 7))
                      None])])
    None.

(** The values an element of a typed array of kind [k] can have: the
    integers of its width and sign, or a binary32 float (24 bits of
    precision, exponents below 128). *)
Definition element_of (k : TypedArray) (v : number) : Prop :=
  match k, v with
  | Int8Array, Int z => -128 ≤ z ≤ 127
  | Uint8Array, Int z => 0 ≤ z ≤ 255
  | Int16Array, Int z => -32768 ≤ z ≤ 32767
  | Uint16Array, Int z => 0 ≤ z ≤ 65535
  | Uint32Array, Int z => 0 ≤ z ≤ 4294967295
  | Float32Array, Float f => valid_binary 24 128 f = true
  | _, _ => False
  end.

(** The integer kinds. *)
Definition is_integer_kind (k : TypedArray) : bool :=
  match k with
  | Float32Array => false
  | _ => true
  end.

(** * Properties *)

(** ** Buffers *)

Section BufferFacts.

Implicit Types (b : Buffer.t) (from to : jsnum).

Lemma adjustOffset_range offset (length : Z) :
  0 ≤ length → 0 ≤ Buffer.adjustOffset offset length ≤ length.
Proof.
  intros Hl. destruct offset as [z|]; simpl; [|lia].
  repeat case_match; lia.
Qed.

(** A subarray is a view on the same store. *)
Lemma subarray_buffer b from to :
  Buffer.buffer (Buffer.subarray b from to) = Buffer.buffer b.
Proof.
  unfold Buffer.buffer, Buffer.subarray; simpl.
  rewrite <- !app_assoc. f_equal.
  rewrite (app_assoc (take _ (drop _ _))), take_drop.
  by rewrite app_assoc, take_drop.
Qed.

(** A subarray shows a run of bytes of the buffer it is taken from. *)
Lemma subarray_within b from to :
  ∃ i n : nat,
    (i + n ≤ Buffer.length b)%nat
    ∧ Buffer.bytes (Buffer.subarray b from to) = take n (drop i (Buffer.bytes b))
    ∧ Buffer.length (Buffer.subarray b from to) = n.
Proof.
  unfold Buffer.subarray, Buffer.length; simpl.
  set (len := Z.of_nat (List.length (Buffer.bytes b))).
  pose proof (adjustOffset_range from len ltac:(lia)) as Hs.
  pose proof (adjustOffset_range to len ltac:(lia)) as He.
  eexists _, _. split; [|split; [reflexivity|]].
  - case_match; lia.
  - rewrite length_take, length_drop. case_match; lia.
Qed.

(** With a start that is not negative and a length that is not negative,
    the subarray holds the bytes at positions [start .. start + len) that
    the buffer has. *)
Lemma subarray_bytes b (start len : Z) :
  0 ≤ start → 0 ≤ len →
  Buffer.bytes (Buffer.subarray b start (start + len))
  = take (Z.to_nat len) (drop (Z.to_nat start) (Buffer.bytes b)).
Proof.
  intros Hs Hl. unfold Buffer.subarray, Buffer.adjustOffset, Buffer.length; simpl.
  set (l := Buffer.bytes b).
  repeat case_match; try lia;
    repeat match goal with
           | H : (_ =? _) = _ |- _ => first [apply Z.eqb_eq in H | apply Z.eqb_neq in H]
           | H : (_ <? _) = _ |- _ => first [apply Z.ltb_lt in H | apply Z.ltb_ge in H]
           end; try lia.
  all: try (rewrite !drop_ge by lia; by rewrite !take_nil).
  all: try (replace (Z.to_nat start) with 0%nat by lia).
  all: try (replace len with 0 by lia; done).
  all: try (f_equal; lia).
  all: try (rewrite !take_ge by (rewrite ?length_drop; lia); done).
Qed.

(** The copy made from the store at the view's own bounds holds the
    view's bytes. *)
Lemma arrayBuffer_bytes b : arrayBuffer b = Buffer.bytes b.
Proof.
  unfold arrayBuffer, Buffer.ArrayBuffer_slice, Buffer.buffer,
    Buffer.byteOffset, Buffer.length.
  rewrite drop_app_length.
  replace (_ + _ - _)%nat with (List.length (Buffer.bytes b)) by lia.
  by rewrite take_app_length.
Qed.

End BufferFacts.

(** ** Typed arrays and grouping *)

Section DecodingFacts.

Lemma component_size code componentType :
  COMPONENT_TYPES code = Some componentType →
  ComponentType.size componentType
  = Z.of_nat (BYTES_PER_ELEMENT (ComponentType.array componentType)).
Proof.
  unfold COMPONENT_TYPES. repeat case_match; intros [= <-]; reflexivity.
Qed.

Lemma BYTES_PER_ELEMENT_pos k : (0 < BYTES_PER_ELEMENT k)%nat.
Proof. destruct k; simpl; lia. Qed.

Lemma type_size_pos shape typeSize :
  TYPE_SIZES shape = Some typeSize → (0 < typeSize)%nat.
Proof.
  unfold TYPE_SIZES. repeat case_match; intros [= <-]; lia.
Qed.

(** A byte length that is a multiple of the element size gives a typed
    array; element [i] is read from the bytes at [i * size]. *)
Lemma new_TypedArray_multiple k (bs : list byte) (n : nat) :
  List.length bs = (n * BYTES_PER_ELEMENT k)%nat →
  new_TypedArray k bs
  = Return (map (fun i => element k (take (BYTES_PER_ELEMENT k)
                                        (drop (i * BYTES_PER_ELEMENT k) bs)))
                (seq 0 n)).
Proof.
  intros Hlen. unfold new_TypedArray. rewrite Hlen.
  pose proof (BYTES_PER_ELEMENT_pos k).
  rewrite Nat.Div0.mod_mul, Nat.div_mul by lia. reflexivity.
Qed.

Lemma new_TypedArray_returns k (bs : list byte) :
  (List.length bs mod BYTES_PER_ELEMENT k = 0)%nat →
  ∃ values, new_TypedArray k bs = Return values
            ∧ List.length values = (List.length bs / BYTES_PER_ELEMENT k)%nat.
Proof.
  intros Hmod. unfold new_TypedArray.
  rewrite (proj2 (Nat.eqb_eq _ _) Hmod).
  eexists; split; [reflexivity|]. by rewrite length_map, length_seq.
Qed.

Lemma new_TypedArray_throws k (bs : list byte) :
  (List.length bs mod BYTES_PER_ELEMENT k ≠ 0)%nat →
  new_TypedArray k bs = Throw RangeError.
Proof.
  intros Hmod. unfold new_TypedArray.
  by rewrite (proj2 (Nat.eqb_neq _ _) Hmod).
Qed.

(** The window of an element inside a window of the buffer. *)
Lemma take_drop_window {A} (l : list A) (start len i n : nat) :
  (i + n ≤ len)%nat →
  take n (drop i (take len (drop start l))) = take n (drop (start + i) l).
Proof.
  intros Hin.
  rewrite <- (drop_drop l i start).
  rewrite (take_drop_commute (take len (drop start l)) n i), take_take.
  rewrite (take_drop_commute (drop start l) n i).
  by replace ((i + n) `min` len)%nat with (i + n)%nat by lia.
Qed.

(** The grouping loop on [N] whole groups: round [k] starts at
    [i = k * typeSize] and pushes the group of the values from there. *)
Lemma group_loop_whole (typeSize N : nat) (values : list number) :
  (0 < typeSize)%nat →
  List.length values = (N * typeSize)%nat →
  ∀ (m k : nat) (acc : list grouped) (fuel : nat),
    (k + m = N)%nat → (m ≤ fuel)%nat →
    group_loop fuel (Some typeSize) values (k * typeSize) acc
    = acc ++ map (fun k =>
                    if (typeSize =? 1)%nat
                    then Bare (nth (k * typeSize) values (Int 0))
                    else Group (take typeSize (drop (k * typeSize) values)))
                 (seq k m).
Proof.
  intros Hts Hlen. induction m as [|m IH]; intros k acc fuel Hk Hfuel.
  - assert (values !! (k * typeSize)%nat = None) as Hnone
      by (apply lookup_ge_None; nia).
    destruct fuel; simpl; rewrite ?Hnone, ?app_nil_r; reflexivity.
  - destruct fuel as [|fuel]; [lia|].
    assert (is_Some (values !! (k * typeSize)%nat)) as [v Hv]
      by (apply lookup_lt_is_Some; nia).
    simpl. rewrite Hv.
    replace (k * typeSize + typeSize)%nat with (S k * typeSize)%nat by lia.
    rewrite IH by lia. rewrite <- app_assoc. simpl.
    by rewrite (nth_lookup_Some _ _ _ _ Hv).
Qed.

Lemma groupedValues_whole (typeSize N : nat) (values : list number) :
  (0 < typeSize)%nat →
  List.length values = (N * typeSize)%nat →
  groupedValues (Some typeSize) values
  = map (fun k =>
           if (typeSize =? 1)%nat
           then Bare (nth (k * typeSize) values (Int 0))
           else Group (take typeSize (drop (k * typeSize) values)))
        (seq 0 N).
Proof.
  intros Hts Hlen. unfold groupedValues.
  rewrite (group_loop_whole typeSize N values Hts Hlen N 0 []); [done|lia|nia].
Qed.

(** The rounds given to the loop are enough: more of them change nothing. *)
Lemma group_loop_enough (typeSize : option nat) (values : list number) :
  (∀ n, typeSize = Some n → (0 < n)%nat) →
  ∀ (fuel extra i : nat) (acc : list grouped),
    (List.length values ≤ i + fuel)%nat →
    group_loop (fuel + extra) typeSize values i acc
    = group_loop fuel typeSize values i acc.
Proof.
  intros Hpos. induction fuel as [|fuel IH]; intros extra i acc Hfuel.
  - assert (values !! i = None) as Hnone by (apply lookup_ge_None; lia).
    destruct extra; simpl; by rewrite ?Hnone.
  - simpl. destruct (values !! i) as [v|]; [|done].
    destruct typeSize as [n|]; [|done].
    specialize (Hpos n eq_refl). apply IH. lia.
Qed.

(** With an undefined [typeSize] and no values the loop body never runs. *)
Lemma groupedValues_nil typeSize : groupedValues typeSize [] = [].
Proof. reflexivity. Qed.

End DecodingFacts.

(** ** extractAccessorData *)

Section AccessorFacts.

Implicit Types (accessor : Accessor.t) (bufferView : BufferView.t).
Implicit Types (binaryBuffer : Buffer.t) (componentType : ComponentType.t).

Lemma or_zero_default (x : option Z) : or_zero x = default 0 x.
Proof.
  destruct x as [z|]; simpl; [|done].
  case_match; [|done]. by apply Z.eqb_eq in H.
Qed.

Lemma map_seq_from {A} (f : nat → A) (a n : nat) :
  map f (seq a n) = map (fun j => f (a + j)%nat) (seq 0 n).
Proof.
  revert a. induction n as [|n IH]; intros a; [done|].
  simpl. rewrite Nat.add_0_r. f_equal.
  rewrite IH, <- seq_shift, map_map.
  apply map_ext; intros j. f_equal. lia.
Qed.

Lemma extractAccessorData_decoded accessor (bufferView : option BufferView.t)
    binaryBuffer componentType groups :
  COMPONENT_TYPES (Accessor.componentType accessor) = Some componentType →
  decodeGroups componentType (TYPE_SIZES (Accessor.type accessor))
    accessor bufferView binaryBuffer = Return groups →
  extractAccessorData accessor bufferView binaryBuffer
  = Return (decoded accessor componentType groups).
Proof.
  intros Hct Hgroups. unfold extractAccessorData. rewrite Hct, Hgroups.
  unfold decoded; simpl. by case_match.
Qed.

Lemma extractAccessorData_throws accessor (bufferView : option BufferView.t)
    binaryBuffer componentType e :
  COMPONENT_TYPES (Accessor.componentType accessor) = Some componentType →
  decodeGroups componentType (TYPE_SIZES (Accessor.type accessor))
    accessor bufferView binaryBuffer = Throw e →
  extractAccessorData accessor bufferView binaryBuffer = Throw e.
Proof.
  intros Hct Hgroups. unfold extractAccessorData. by rewrite Hct, Hgroups.
Qed.

(** The bytes a decode reads, when offset and length are not negative. *)
Lemma decodeGroups_window accessor bufferView binaryBuffer componentType
    typeSize (len : Z) :
  byteLength accessor (elementSize componentType typeSize) = Fin len →
  0 ≤ byteOffset accessor bufferView → 0 ≤ len →
  decodeGroups componentType typeSize accessor (Some bufferView) binaryBuffer
  = (values ← new_TypedArray (ComponentType.array componentType)
                (take (Z.to_nat len)
                   (drop (Z.to_nat (byteOffset accessor bufferView))
                      (Buffer.bytes binaryBuffer)));
     mret (groupedValues typeSize values)).
Proof.
  intros Hlen Hstart Hnonneg. unfold decodeGroups, rawBytes.
  rewrite arrayBuffer_bytes, Hlen. simpl jsadd.
  by rewrite subarray_bytes.
Qed.

(** Whole elements: the groups of [N] elements of [typeSize] components
    read from a window of [N * typeSize] components. *)
Lemma groups_of_window (k : TypedArray) (bytes : list byte)
    (start typeSize N : nat) :
  (0 < typeSize)%nat →
  (start + N * typeSize * BYTES_PER_ELEMENT k ≤ List.length bytes)%nat →
  ∃ values,
    new_TypedArray k (take (N * typeSize * BYTES_PER_ELEMENT k) (drop start bytes))
    = Return values
    ∧ List.length values = (N * typeSize)%nat
    ∧ groupedValues (Some typeSize) values
      = map (element_at k bytes start typeSize) (seq 0 N).
Proof.
  intros Hts Hfit.
  set (sz := BYTES_PER_ELEMENT k) in *.
  set (window := take (N * typeSize * sz) (drop start bytes)).
  assert (List.length window = (N * typeSize * sz)%nat) as Hwin
    by (unfold window; rewrite length_take, length_drop; lia).
  eexists. split; [apply (new_TypedArray_multiple k window (N * typeSize) Hwin)|].
  fold sz. set (f := fun i : nat => element k (take sz (drop (i * sz) window))).
  assert (∀ i, (i < N * typeSize)%nat → f i = component_at k bytes start i) as Hf.
  { intros i Hi. unfold f, component_at, window. fold sz.
    rewrite take_drop_window; [done|]. nia. }
  split; [by rewrite length_map, length_seq|].
  rewrite (groupedValues_whole typeSize N) by (rewrite ?length_map, ?length_seq; done).
  apply map_ext_in. intros e [_ He]%in_seq. unfold element_at.
  destruct (typeSize =? 1)%nat eqn:Hone.
  - apply Nat.eqb_eq in Hone. subst typeSize. f_equal.
    rewrite Nat.mul_1_r.
    erewrite nth_lookup_Some; [apply Hf; lia|].
    change (map f ?l) with (f <$> l).
    rewrite list_lookup_fmap, (proj2 (lookup_seq 0 _ e e)); [done|lia].
  - f_equal. rewrite skipn_map, firstn_map, drop_seq, take_seq.
    replace (typeSize `min` (N * typeSize - e * typeSize))%nat with typeSize by nia.
    simpl. rewrite map_seq_from.
    apply map_ext_in. intros j [_ Hj]%in_seq. apply Hf. nia.
Qed.

Lemma element_at_shape k bytes start typeSize e :
  group_shape typeSize (element_at k bytes start typeSize e).
Proof.
  unfold group_shape, element_at. case_match; [by eexists|].
  eexists; split; [reflexivity|]. by rewrite length_map, length_seq.
Qed.

(** Flattened, the groups are the components in the order of the buffer. *)
Lemma components_element_at k bytes start typeSize e :
  components (element_at k bytes start typeSize e)
  = map (component_at k bytes start) (seq (e * typeSize) typeSize).
Proof.
  unfold element_at. destruct (typeSize =? 1)%nat eqn:Hone.
  - apply Nat.eqb_eq in Hone. subst typeSize. simpl. by rewrite Nat.mul_1_r.
  - simpl. by rewrite (map_seq_from (component_at k bytes start)).
Qed.

Lemma concat_components k bytes start typeSize N :
  concat (map components
            (map (element_at k bytes start typeSize) (seq 0 N)))
  = map (component_at k bytes start) (seq 0 (N * typeSize)).
Proof.
  induction N as [|N IH]; [done|].
  rewrite seq_S, !map_app, concat_app, IH. simpl.
  rewrite components_element_at, app_nil_r, <- map_app.
  f_equal. replace (typeSize + N * typeSize)%nat with (N * typeSize + typeSize)%nat by lia.
  by rewrite seq_app.
Qed.

End AccessorFacts.

(** ** The accessor decoder *)

(** C1. With a recognized component type and a recognized shape, a count
    [N] and offsets that are not negative, and a buffer that covers the
    byte window, the decode returns [N] groups, the first 20 of them when
    [N] exceeds 20: group [e] is a bare number for a scalar shape and
    otherwise the [typeSize] components of element [e] in the order the
    buffer has them, matrices included, so that the groups laid end to end
    are the components of the window in their order. *)
Theorem decode_yields_count_groups accessor bufferView binaryBuffer
    componentType typeSize :
  COMPONENT_TYPES (Accessor.componentType accessor) = Some componentType →
  TYPE_SIZES (Accessor.type accessor) = Some typeSize →
  0 ≤ Accessor.count accessor →
  0 ≤ byteOffset accessor bufferView →
  byteOffset accessor bufferView
  + Accessor.count accessor
    * (ComponentType.size componentType * Z.of_nat typeSize)
  ≤ Z.of_nat (Buffer.length binaryBuffer) →
  let N := Z.to_nat (Accessor.count accessor) in
  let groups :=
    map (element_at (ComponentType.array componentType)
           (Buffer.bytes binaryBuffer)
           (Z.to_nat (byteOffset accessor bufferView)) typeSize)
        (seq 0 N) in
  ∃ r,
    extractAccessorData accessor (Some bufferView) binaryBuffer = Return r
    ∧ DecodedAccessor.error r = None
    ∧ List.length groups = N
    ∧ Forall (group_shape typeSize) groups
    ∧ concat (map components groups)
      = map (component_at (ComponentType.array componentType)
               (Buffer.bytes binaryBuffer)
               (Z.to_nat (byteOffset accessor bufferView)))
            (seq 0 (N * typeSize))
    ∧ ((N ≤ 20)%nat →
       DecodedAccessor.values r = Some groups
       ∧ DecodedAccessor.truncatedValues r = None)
    ∧ ((20 < N)%nat →
       DecodedAccessor.truncatedValues r = Some (take 20 groups)
       ∧ List.length (take 20 groups) = 20%nat
       ∧ DecodedAccessor.values r = None).
Proof.
  intros Hct Hts Hcount Hstart Hfit N groups.
  pose proof (component_size _ _ Hct) as Hsize.
  pose proof (type_size_pos _ _ Hts) as Hpos.
  set (k := ComponentType.array componentType) in *.
  set (start := byteOffset accessor bufferView) in *.
  destruct (groups_of_window k (Buffer.bytes binaryBuffer) (Z.to_nat start)
              typeSize N Hpos) as (values & Hvalues & _ & Hgroups).
  { unfold Buffer.length in Hfit. subst N. nia. }
  assert (List.length groups = N) as Hlen
    by (unfold groups; by rewrite length_map, length_seq).
  exists (decoded accessor componentType groups). split.
  - apply extractAccessorData_decoded; [done|]. rewrite Hts.
    rewrite (decodeGroups_window _ _ _ _ _
               (Accessor.count accessor
                * (ComponentType.size componentType * Z.of_nat typeSize)));
      [|done|done|nia].
    fold start k.
    replace (Z.to_nat _) with (N * typeSize * BYTES_PER_ELEMENT k)%nat
      by (subst N; nia).
    rewrite Hvalues. simpl. by rewrite Hgroups.
  - split; [done|]. split; [done|]. split.
    { apply Forall_forall. intros g (e & <- & _)%list_elem_of_In%in_map_iff.
      apply element_at_shape. }
    split; [apply concat_components|].
    unfold decoded; simpl. rewrite Hlen. unfold TRUNCATE_LIMIT. split.
    + intros Hle. by rewrite (proj2 (Nat.ltb_ge _ _) Hle).
    + intros Hlt. rewrite (proj2 (Nat.ltb_lt _ _) Hlt).
      split; [done|]. split; [|done]. rewrite length_take. lia.
Qed.

Lemma decode_yields_count_groups_witness :
  ∃ r, extractAccessorData vec3_float_2 (Some (BufferView.mk (Some 8)))
         (Buffer.of_bytes (bytes_upto 40)) = Return r
       ∧ option_map (List.length (A:=grouped)) (DecodedAccessor.values r) = Some 2%nat.
Proof.
  destruct (decode_yields_count_groups vec3_float_2 (BufferView.mk (Some 8))
              (Buffer.of_bytes (bytes_upto 40))
              (ComponentType.mk "FLOAT" 4 Float32Array) 3)
    as (r & Hr & _ & _ & _ & _ & Hvalues & _);
    [reflexivity | reflexivity | vm_compute; discriminate | vm_compute; discriminate
    | vm_compute; discriminate |].
  exists r. split; [exact Hr|].
  destruct (Hvalues ltac:(vm_compute; lia)) as [-> _]. reflexivity.
Defined.

(** C2. A decode that returns a result without an error sets exactly one of
    [values] and [truncatedValues]: more than 20 groups give
    [truncatedValues], the first 20 groups, and no [values]; 20 groups or
    fewer give [values], all groups, and no [truncatedValues]. *)
Theorem values_xor_truncatedValues accessor bufferView binaryBuffer r :
  extractAccessorData accessor bufferView binaryBuffer = Return r →
  DecodedAccessor.error r = None →
  ∃ componentType groups,
    COMPONENT_TYPES (Accessor.componentType accessor) = Some componentType
    ∧ decodeGroups componentType (TYPE_SIZES (Accessor.type accessor))
        accessor bufferView binaryBuffer = Return groups
    ∧ ((20 < List.length groups)%nat →
       DecodedAccessor.truncatedValues r = Some (take 20 groups)
       ∧ List.length (take 20 groups) = 20%nat
       ∧ DecodedAccessor.values r = None)
    ∧ ((List.length groups ≤ 20)%nat →
       DecodedAccessor.values r = Some groups
       ∧ DecodedAccessor.truncatedValues r = None).
Proof.
  intros Hr Herr.
  destruct (COMPONENT_TYPES (Accessor.componentType accessor))
    as [componentType|] eqn:Hct.
  - destruct (decodeGroups componentType (TYPE_SIZES (Accessor.type accessor))
                accessor bufferView binaryBuffer) as [groups|e] eqn:Hgroups.
    + rewrite (extractAccessorData_decoded _ _ _ _ _ Hct Hgroups) in Hr.
      injection Hr as <-. exists componentType, groups.
      split; [done|]. split; [done|].
      unfold decoded, TRUNCATE_LIMIT; simpl. split.
      * intros Hlt. rewrite (proj2 (Nat.ltb_lt _ _) Hlt).
        split; [done|]. split; [|done]. rewrite length_take. lia.
      * intros Hle. by rewrite (proj2 (Nat.ltb_ge _ _) Hle).
    + by rewrite (extractAccessorData_throws _ _ _ _ _ Hct Hgroups) in Hr.
  - unfold extractAccessorData in Hr. rewrite Hct in Hr.
    injection Hr as <-. discriminate Herr.
Qed.

Lemma values_xor_truncatedValues_witness :
  extractAccessorData (vec2_byte 21) (Some (BufferView.mk None))
    (Buffer.of_bytes (bytes_upto 64)) = Return vec2_byte_21_decoded
  ∧ option_map (List.length (A:=grouped))
      (DecodedAccessor.truncatedValues vec2_byte_21_decoded) = Some 20%nat
  ∧ DecodedAccessor.values vec2_byte_21_decoded = None.
Proof.
  assert (extractAccessorData (vec2_byte 21) (Some (BufferView.mk None))
            (Buffer.of_bytes (bytes_upto 64)) = Return vec2_byte_21_decoded)
    as Hr by (vm_compute; reflexivity).
  split; [exact Hr|].
  destruct (values_xor_truncatedValues (vec2_byte 21) (Some (BufferView.mk None))
              (Buffer.of_bytes (bytes_upto 64)) vec2_byte_21_decoded Hr eq_refl)
    as (componentType & groups & Hct & Hgroups & Htruncated & _).
  vm_compute in Hct. injection Hct as <-.
  vm_compute in Hgroups. injection Hgroups as <-.
  destruct (Htruncated ltac:(vm_compute; lia)) as (Ht & _ & Hv).
  split; [rewrite Ht; reflexivity|exact Hv].
Defined.

(** The boundary of the truncation: 20 groups are kept under [values],
    21 groups are cut to 20 under [truncatedValues]. *)
Example count_20_is_not_truncated :
  ∃ r, extractAccessorData (vec2_byte 20) (Some (BufferView.mk None))
         (Buffer.of_bytes (bytes_upto 64)) = Return r
       ∧ option_map (List.length (A:=grouped)) (DecodedAccessor.values r)
         = Some 20%nat
       ∧ DecodedAccessor.truncatedValues r = None.
Proof. eexists. split; [reflexivity|]. split; reflexivity. Qed.

Example count_21_is_truncated :
  ∃ r, extractAccessorData (vec2_byte 21) (Some (BufferView.mk None))
         (Buffer.of_bytes (bytes_upto 64)) = Return r
       ∧ option_map (List.length (A:=grouped)) (DecodedAccessor.truncatedValues r)
         = Some 20%nat
       ∧ DecodedAccessor.values r = None.
Proof. eexists. split; [reflexivity|]. split; reflexivity. Qed.

(** The codes and shapes the two tables know. *)
Lemma COMPONENT_TYPES_recognized (code : Z) :
  is_Some (COMPONENT_TYPES code)
  ↔ code ∈ [5120; 5121; 5122; 5123; 5125; 5126].
Proof.
  unfold COMPONENT_TYPES. rewrite !elem_of_cons, elem_of_nil.
  repeat case_match;
    repeat match goal with
           | H : (_ =? _) = true |- _ => apply Z.eqb_eq in H
           | H : (_ =? _) = false |- _ => apply Z.eqb_neq in H
           end;
    split; intros H'; try (by eexists); try lia;
    try (by destruct H' as [? [=]]).
Qed.

Lemma TYPE_SIZES_recognized (shape : string) :
  is_Some (TYPE_SIZES shape)
  ↔ shape ∈ ["SCALAR"; "VEC2"; "VEC3"; "VEC4"; "MAT2"; "MAT3"; "MAT4"]%string.
Proof.
  unfold TYPE_SIZES. rewrite !elem_of_cons, elem_of_nil.
  repeat case_match;
    repeat match goal with
           | H : String.eqb _ _ = true |- _ => apply String.eqb_eq in H
           | H : String.eqb _ _ = false |- _ => apply String.eqb_neq in H
           end;
    split; intros H'; try (by eexists); try tauto;
    try (by destruct H' as [? [=]]).
Qed.

(** What holds of the guard: a numeric code outside the table, and a text
    that is neither the text of a code of the table nor the name of an
    inherited member, give the result whose one field is the error text
    with the code, whatever the buffer view and the buffer are; the walk
    over the attributes of a primitive assigns that result to the
    attribute's name and goes on with the attributes after it. *)
Lemma unknown_code_gives_error_result (accessor : Accessor.t)
    (bufferView : option BufferView.t) (binaryBuffer : Buffer.t) :
  COMPONENT_TYPES (Accessor.componentType accessor) = None →
  - 2 ^ 53 < Accessor.componentType accessor < 2 ^ 53 →
  extractAccessorData accessor bufferView binaryBuffer
  = Return (unknown_component_type (Accessor.componentType accessor)).
Proof.
  intros Hct _. unfold extractAccessorData. by rewrite Hct.
Qed.

Lemma extractAccessorData_keyed_code (accessor : Accessor.t)
    (bufferView : option BufferView.t) (binaryBuffer : Buffer.t) :
  extractAccessorData_keyed (CodeKey (Accessor.componentType accessor))
    accessor bufferView binaryBuffer
  = extractAccessorData accessor bufferView binaryBuffer.
Proof.
  unfold extractAccessorData_keyed, extractAccessorData, COMPONENT_TYPES_at.
  destruct (COMPONENT_TYPES (Accessor.componentType accessor))
    as [componentType|]; [|done].
  unfold decodeGroups. simpl. destruct bufferView as [bufferView|]; [|done].
  by destruct (new_TypedArray _ _).
Qed.

Lemma unknown_name_gives_error_result (name : string) (accessor : Accessor.t)
    (bufferView : option BufferView.t) (binaryBuffer : Buffer.t) :
  own_code name = None →
  name ∉ Object_prototype_names →
  extractAccessorData_keyed (NameKey name) accessor bufferView binaryBuffer
  = Return (DecodedAccessor.mk (Some ("Unknown component type: " +:+ name))
              None None None None None None None).
Proof.
  intros Hown Hname. unfold extractAccessorData_keyed, COMPONENT_TYPES_at.
  rewrite Hown. simpl. by rewrite bool_decide_eq_false_2.
Qed.

Lemma walk_continues_after_error_result (gltfData : Gltf.t)
    (binaryBuffer : Buffer.t) (accessor : Accessor.t)
    (entries entries' : list (string * Z)) (name : string) (accessorIndex : Z)
    (attributes : gmap string DecodedAccessor.t) :
  COMPONENT_TYPES (Accessor.componentType accessor) = None →
  - 2 ^ 53 < Accessor.componentType accessor < 2 ^ 53 →
  at_index (Gltf.accessors gltfData) accessorIndex = Some accessor →
  forEach_attribute gltfData binaryBuffer
    (entries ++ (name, accessorIndex) :: entries') attributes
  = (attributes' ← forEach_attribute gltfData binaryBuffer entries attributes;
     forEach_attribute gltfData binaryBuffer entries'
       (assign name (unknown_component_type (Accessor.componentType accessor))
          attributes')).
Proof.
  intros Hct _ Hacc.
  assert (extractAccessor gltfData binaryBuffer accessorIndex
          = Return (unknown_component_type (Accessor.componentType accessor)))
    as Hone.
  { unfold extractAccessor, extractAccessorData. by rewrite Hacc, Hct. }
  revert attributes. induction entries as [|[n i] entries IH]; intros attributes.
  - simpl. by rewrite Hone.
  - simpl. destruct (extractAccessor gltfData binaryBuffer i) as [data|e];
      simpl; [apply IH|done].
Qed.

(** C3. The guard of line 72 lets the name of an inherited member through.
    [constructor] is not the text of a code of the table, the lookup with
    it finds no entry of the table, and yet the test for an unknown
    component type does not hold of what it finds, the function every
    object inherits.  An accessor whose component type is that text does
    not come back with the error result: the decode throws a type error,
    with a buffer view or without one, whatever the other fields and the
    buffer are. *)
Theorem inherited_name_passes_guard (accessor : Accessor.t)
    (bufferView : option BufferView.t) (binaryBuffer : Buffer.t) :
  own_code "constructor" = None
  ∧ COMPONENT_TYPES_at (NameKey "constructor") = Inherited "constructor"
  ∧ falsy (COMPONENT_TYPES_at (NameKey "constructor")) = false
  ∧ extractAccessorData_keyed (NameKey "constructor") accessor bufferView
      binaryBuffer
    = Throw TypeError
  ∧ extractAccessorData_keyed (NameKey "constructor") accessor bufferView
      binaryBuffer
    ≠ Return (DecodedAccessor.mk (Some "Unknown component type: constructor")
                None None None None None None None).
Proof.
  assert (extractAccessorData_keyed (NameKey "constructor") accessor bufferView
            binaryBuffer = Throw TypeError) as Hthrow.
  { unfold extractAccessorData_keyed.
    change (COMPONENT_TYPES_at (NameKey "constructor"))
      with (Inherited "constructor").
    by destruct bufferView. }
  do 3 (split; [reflexivity|]). split; [exact Hthrow|]. by rewrite Hthrow.
Qed.

(** C4. With a recognized component type and shape, the window starts at
    the buffer view's offset plus the accessor's offset, each 0 when
    absent, and is count * component size * components per element long;
    the subarray taken shows the bytes of the buffer at the positions of
    the window and, when the buffer covers the window, lies that far into
    the store.  With buffer-view offset 100 and accessor offset 8, one
    scalar float reads bytes 108 to 111 of any buffer that has them. *)
Theorem byte_window accessor bufferView binaryBuffer componentType typeSize :
  COMPONENT_TYPES (Accessor.componentType accessor) = Some componentType →
  TYPE_SIZES (Accessor.type accessor) = Some typeSize →
  let start :=
    default 0 (BufferView.byteOffset bufferView)
    + default 0 (Accessor.byteOffset accessor) in
  let len :=
    Accessor.count accessor * ComponentType.size componentType
    * Z.of_nat typeSize in
  0 ≤ start → 0 ≤ len →
  byteOffset accessor bufferView = start
  ∧ byteLength accessor (elementSize componentType (Some typeSize)) = Fin len
  ∧ Buffer.bytes (rawBytes binaryBuffer start len)
    = take (Z.to_nat len) (drop (Z.to_nat start) (Buffer.bytes binaryBuffer))
  ∧ (start + len ≤ Z.of_nat (Buffer.length binaryBuffer) →
     Z.of_nat (Buffer.length (rawBytes binaryBuffer start len)) = len
     ∧ Z.of_nat (Buffer.byteOffset (rawBytes binaryBuffer start len))
       = Z.of_nat (Buffer.byteOffset binaryBuffer) + start)
  ∧ decodeGroups componentType (Some typeSize) accessor (Some bufferView)
      binaryBuffer
    = (values ← new_TypedArray (ComponentType.array componentType)
                  (take (Z.to_nat len)
                     (drop (Z.to_nat start) (Buffer.bytes binaryBuffer)));
       mret (groupedValues (Some typeSize) values))
  ∧ (∀ buffer : Buffer.t,
       112 ≤ Z.of_nat (Buffer.length buffer) →
       ∃ b108 b109 b110 b111,
         Buffer.bytes
           (rawBytes buffer (byteOffset float_at_8 view_at_100)
              (byteLength float_at_8
                 (elementSize (ComponentType.mk "FLOAT" 4 Float32Array)
                    (TYPE_SIZES "SCALAR"))))
         = [b108; b109; b110; b111]
         ∧ drop 108 (take 112 (Buffer.bytes buffer)) = [b108; b109; b110; b111]
         ∧ extractAccessorData float_at_8 (Some view_at_100) buffer
           = Return (decoded float_at_8 (ComponentType.mk "FLOAT" 4 Float32Array)
                       [Bare (Float (float32 (le_combine [b108; b109; b110; b111])))])).
Proof.
  intros Hct Hts start len Hstart Hlen.
  assert (byteOffset accessor bufferView = start) as Hoff
    by (unfold byteOffset; by rewrite !or_zero_default).
  assert (byteLength accessor (elementSize componentType (Some typeSize)) = Fin len)
    as Hbl by (unfold byteLength, elementSize, len; simpl; f_equal; lia).
  assert (Buffer.bytes (rawBytes binaryBuffer start len)
          = take (Z.to_nat len) (drop (Z.to_nat start) (Buffer.bytes binaryBuffer)))
    as Hraw by (unfold rawBytes; simpl jsadd; by apply subarray_bytes).
  split; [done|]. split; [done|]. split; [done|]. split; [|split].
  - intros Hfit. unfold Buffer.length at 1. rewrite Hraw. split.
    + rewrite length_take, length_drop. unfold Buffer.length in Hfit. lia.
    + unfold rawBytes, Buffer.subarray, Buffer.byteOffset; simpl.
      rewrite length_app, length_take.
      unfold Buffer.adjustOffset, Buffer.length in *.
      repeat case_match; lia.
  - rewrite <- Hoff in *. by apply decodeGroups_window.
  - intros buffer Hbuf.
    assert (Buffer.bytes
              (rawBytes buffer (byteOffset float_at_8 view_at_100)
                 (byteLength float_at_8
                    (elementSize (ComponentType.mk "FLOAT" 4 Float32Array)
                       (TYPE_SIZES "SCALAR"))))
            = take 4 (drop 108 (Buffer.bytes buffer))) as Hwin
      by (apply (subarray_bytes buffer 108 4); lia).
    unfold Buffer.length in Hbuf.
    destruct (drop 108 (Buffer.bytes buffer)) as [|b108 [|b109 [|b110 [|b111 rest]]]]
      eqn:Hdrop;
      try (apply (f_equal List.length) in Hdrop;
           rewrite length_drop in Hdrop; simpl in Hdrop; lia).
    exists b108, b109, b110, b111. split; [by rewrite Hwin|]. split.
    + rewrite skipn_firstn_comm, Hdrop. reflexivity.
    + apply extractAccessorData_decoded; [reflexivity|].
      change (TYPE_SIZES (Accessor.type float_at_8)) with (Some 1%nat).
      rewrite (decodeGroups_window _ _ _ _ _ 4); [|reflexivity|done|done].
      change (Z.to_nat (byteOffset float_at_8 view_at_100)) with 108%nat.
      rewrite Hdrop. reflexivity.
Qed.

Lemma byte_window_witness :
  byteOffset float_at_8 view_at_100 = 108
  ∧ byteLength float_at_8
      (elementSize (ComponentType.mk "FLOAT" 4 Float32Array) (Some 1%nat)) = Fin 4
  ∧ Buffer.bytes (rawBytes (Buffer.of_bytes (bytes_upto 120)) 108 4)
    = [byte.of_Z 108; byte.of_Z 109; byte.of_Z 110; byte.of_Z 111].
Proof.
  destruct (byte_window float_at_8 view_at_100 (Buffer.of_bytes (bytes_upto 120))
              (ComponentType.mk "FLOAT" 4 Float32Array) 1 eq_refl eq_refl)
    as (Hstart & Hlen & Hbytes & _);
    [vm_compute; discriminate | vm_compute; discriminate |].
  split; [exact Hstart|]. split; [exact Hlen|].
  etransitivity; [exact Hbytes|]. vm_compute. reflexivity.
Defined.

(** One scalar float asked from three bytes: both lookups succeed, the
    window [0, 4) runs past the end of the buffer, and the decode throws. *)
Lemma short_float_window_throws :
  COMPONENT_TYPES (Accessor.componentType float_scalar_1)
  = Some (ComponentType.mk "FLOAT" 4 Float32Array)
  ∧ TYPE_SIZES (Accessor.type float_scalar_1) = Some 1%nat
  ∧ Z.of_nat (Buffer.length three_bytes)
    < byteOffset float_scalar_1 (BufferView.mk None)
      + Accessor.count float_scalar_1 * (4 * 1)
  ∧ extractAccessorData float_scalar_1 (Some (BufferView.mk None)) three_bytes
    = Throw RangeError.
Proof. repeat split. Qed.

(** C5, amended. When the window runs past the end of the buffer, with a
    start and a count that are not negative, the bytes read are the bytes
    of the buffer from the start of the window to the buffer's end, never
    more than the window asks for and fewer when the window is not empty;
    when their number is a multiple of the component size, which it always
    is for the two 8-bit component types, the decode returns the result
    built from them. *)
Theorem window_past_end_is_clamped accessor bufferView binaryBuffer
    componentType typeSize :
  COMPONENT_TYPES (Accessor.componentType accessor) = Some componentType →
  TYPE_SIZES (Accessor.type accessor) = Some typeSize →
  let start := byteOffset accessor bufferView in
  let len :=
    Accessor.count accessor
    * (ComponentType.size componentType * Z.of_nat typeSize) in
  let k := ComponentType.array componentType in
  0 ≤ start → 0 ≤ Accessor.count accessor →
  Z.of_nat (Buffer.length binaryBuffer) < start + len →
  let window := rawBytes binaryBuffer start len in
  Buffer.bytes window = drop (Z.to_nat start) (Buffer.bytes binaryBuffer)
  ∧ Buffer.buffer window = Buffer.buffer binaryBuffer
  ∧ Z.of_nat (Buffer.length window) ≤ len
  ∧ (0 < len → Z.of_nat (Buffer.length window) < len)
  ∧ ((Buffer.length window mod BYTES_PER_ELEMENT k = 0)%nat →
     ∃ values,
       new_TypedArray k (Buffer.bytes window) = Return values
       ∧ List.length values = (Buffer.length window / BYTES_PER_ELEMENT k)%nat
       ∧ extractAccessorData accessor (Some bufferView) binaryBuffer
         = Return (decoded accessor componentType
                     (groupedValues (Some typeSize) values)))
  ∧ (ComponentType.size componentType = 1 →
     returns (extractAccessorData accessor (Some bufferView) binaryBuffer) = true).
Proof.
  intros Hct Hts start len k Hstart Hcount Hpast window.
  pose proof (component_size _ _ Hct) as Hsize. fold k in Hsize.
  assert (0 ≤ len) as Hlen by (unfold len; nia).
  assert (Buffer.bytes window
          = drop (Z.to_nat start) (Buffer.bytes binaryBuffer)) as Hwin.
  { unfold window, rawBytes; simpl jsadd. rewrite subarray_bytes by done.
    apply take_ge. rewrite length_drop. unfold Buffer.length in Hpast. lia. }
  assert (Z.of_nat (Buffer.length window)
          = Z.max 0 (Z.of_nat (Buffer.length binaryBuffer) - start)) as Hwlen.
  { unfold Buffer.length at 1. rewrite Hwin, length_drop.
    unfold Buffer.length. lia. }
  assert ((Buffer.length window mod BYTES_PER_ELEMENT k = 0)%nat →
          ∃ values,
            new_TypedArray k (Buffer.bytes window) = Return values
            ∧ List.length values = (Buffer.length window / BYTES_PER_ELEMENT k)%nat
            ∧ extractAccessorData accessor (Some bufferView) binaryBuffer
              = Return (decoded accessor componentType
                          (groupedValues (Some typeSize) values))) as Hmultiple.
  { intros Hmod.
    destruct (new_TypedArray_returns k (Buffer.bytes window) Hmod)
      as (values & Hvalues & Hvlen).
    exists values. split; [done|]. split; [done|].
    apply extractAccessorData_decoded; [done|]. rewrite Hts.
    unfold decodeGroups. fold start len k.
    change (rawBytes binaryBuffer start
              (byteLength accessor (elementSize componentType (Some typeSize))))
      with window.
    by rewrite arrayBuffer_bytes, Hvalues. }
  split; [done|]. split; [apply subarray_buffer|].
  split; [lia|]. split; [lia|]. split; [done|].
  intros Hone.
  destruct Hmultiple as (values & _ & _ & ->); [|done].
  replace (BYTES_PER_ELEMENT k) with 1%nat by lia. apply Nat.mod_1_r.
Qed.

Lemma window_past_end_is_clamped_witness :
  Buffer.bytes (rawBytes (Buffer.of_bytes (bytes_upto 14)) 0 18) = bytes_upto 14
  ∧ returns (extractAccessorData vec3_short_3 (Some (BufferView.mk None))
               (Buffer.of_bytes (bytes_upto 14))) = true.
Proof.
  destruct (window_past_end_is_clamped vec3_short_3 (BufferView.mk None)
              (Buffer.of_bytes (bytes_upto 14))
              (ComponentType.mk "SHORT" 2 Int16Array) 3 eq_refl eq_refl)
    as (Hbytes & _ & _ & _ & Hmultiple & _);
    [vm_compute; discriminate | vm_compute; discriminate | vm_compute; reflexivity |].
  split; [exact Hbytes|].
  destruct (Hmultiple eq_refl) as (values & _ & _ & ->). reflexivity.
Defined.

(** The last group of a clamped window may be short: 14 bytes hold seven
    16-bit values, two groups of three and one of one. *)
Example clamped_window_partial_group :
  extractAccessorData vec3_short_3 (Some (BufferView.mk None))
    (Buffer.of_bytes (bytes_upto 14))
  = Return (decoded vec3_short_3 (ComponentType.mk "SHORT" 2 Int16Array)
              [Group [Int 256; Int 770; Int 1284];
               Group [Int 1798; Int 2312; Int 2826];
               Group [Int 3340]]).
Proof. reflexivity. Qed.




(** ** JSON.parse: the fuel is enough *)

Section JSONFacts.

Implicit Types (s r : list byte) (fuel : nat).

Lemma skip_ws_cons s b r : JSON.skip_ws s = b :: r → (List.length r < List.length s)%nat.
Proof.
  induction s as [|c s IH]; simpl; [done|].
  case_match; [intros H'; apply IH in H'; lia|].
  intros [= _ <-]. lia.
Qed.

Lemma string_body_shorter s body r :
  JSON.string_body s = Some (body, r) → (List.length r < List.length s)%nat.
Proof.
  remember (List.length s) as n eqn:Hn. revert s body r Hn.
  induction n as [n IH] using lt_wf_ind. intros s body r -> Hs.
  destruct s as [|b s]; [done|]. simpl in Hs.
  repeat (case_match; try discriminate); simplify_eq; simpl;
    try lia;
    match goal with
    | H : JSON.string_body ?t = Some (_, ?r) |- _ =>
        apply (IH (List.length t)) in H; simpl; try lia; try done
    end.
Qed.

Lemma digits_length s d r :
  JSON.digits s = (d, r) → (List.length d + List.length r = List.length s)%nat.
Proof.
  revert d r. induction s as [|b s IH]; intros d r; simpl; [by intros [= <- <-]|].
  case_match; [|by intros [= <- <-]].
  destruct (JSON.digits s) as [d' r'] eqn:Hd. intros [= <- <-].
  specialize (IH _ _ eq_refl). simpl. lia.
Qed.

Lemma number_shorter s lexeme r :
  JSON.number s = Some (lexeme, r) → (List.length r < List.length s)%nat.
Proof.
  unfold JSON.number. intros H.
  repeat (case_match; try discriminate); simplify_eq;
    repeat match goal with
           | H : JSON.digits _ = _ |- _ => apply digits_length in H
           end; simpl in *; lia.
Qed.

Lemma strip_prefix_length w s r :
  JSON.strip_prefix w s = Some r → (List.length w + List.length r = List.length s)%nat.
Proof.
  revert s. induction w as [|c w IH]; intros s; simpl; [by intros [= <-]|].
  destruct s as [|b s]; [done|]. case_match; [|done].
  intros H'%IH. simpl. lia.
Qed.

Lemma literal_shorter word v s v' r :
  word ≠ EmptyString →
  JSON.literal word v s = Some (v', r) → (List.length r < List.length s)%nat.
Proof.
  intros Hword. unfold JSON.literal.
  destruct (JSON.strip_prefix _ s) as [rest|] eqn:Hstrip; [|done].
  intros [= _ <-]. apply strip_prefix_length in Hstrip.
  rewrite length_map in Hstrip. destruct word; [done|]. simpl in Hstrip. lia.
Qed.

Ltac shorter :=
  repeat match goal with
         | H : JSON.skip_ws _ = _ :: _ |- _ => apply skip_ws_cons in H
         | H : JSON.string_body _ = Some _ |- _ => apply string_body_shorter in H
         | H : JSON.number _ = Some _ |- _ => apply number_shorter in H
         | H : JSON.literal _ _ _ = Some _ |- _ => apply literal_shorter in H; [|done]
         end.

(** A value, a list of elements and a list of members take at least one
    byte. *)
Lemma parse_consumes fuel :
  (∀ s v r, JSON.parse_value fuel s = Some (v, r) →
            (List.length r < List.length s)%nat)
  ∧ (∀ s acc v r, JSON.parse_elements fuel s acc = Some (v, r) →
                  (List.length r < List.length s)%nat)
  ∧ (∀ s acc v r, JSON.parse_members fuel s acc = Some (v, r) →
                  (List.length r < List.length s)%nat).
Proof.
  induction fuel as [|fuel (IHv & IHe & IHm)]; [done|].
  split; [|split].
  - intros s v r H. cbn [JSON.parse_value] in H.
    repeat (case_match; try discriminate); simplify_eq;
      try match goal with
          | H : JSON.parse_members _ _ _ = Some _ |- _ => apply IHm in H
          | H : JSON.parse_elements _ _ _ = Some _ |- _ => apply IHe in H
          end;
      shorter; simpl in *; lia.
  - intros s acc v r H. cbn [JSON.parse_elements] in H.
    repeat (case_match; try discriminate); simplify_eq;
      repeat match goal with
          | H : JSON.parse_value _ _ = Some _ |- _ => apply IHv in H
          | H : JSON.parse_elements _ _ _ = Some _ |- _ => apply IHe in H
          end;
      shorter; simpl in *; lia.
  - intros s acc v r H. cbn [JSON.parse_members] in H.
    repeat (case_match; try discriminate); simplify_eq;
      repeat match goal with
          | H : JSON.parse_value _ _ = Some _ |- _ => apply IHv in H
          | H : JSON.parse_members _ _ _ = Some _ |- _ => apply IHm in H
          end;
      shorter; simpl in *; lia.
Qed.

(** With two units of fuel for every byte and two more, the fuel does not
    run out: any larger amount gives the same result. *)
Lemma parse_stable fuel1 :
  (∀ s fuel2,
     (2 * List.length s + 2 ≤ fuel1)%nat → (2 * List.length s + 2 ≤ fuel2)%nat →
     JSON.parse_value fuel1 s = JSON.parse_value fuel2 s)
  ∧ (∀ s acc fuel2,
       (2 * List.length s + 3 ≤ fuel1)%nat → (2 * List.length s + 3 ≤ fuel2)%nat →
       JSON.parse_elements fuel1 s acc = JSON.parse_elements fuel2 s acc)
  ∧ (∀ s acc fuel2,
       (2 * List.length s + 3 ≤ fuel1)%nat → (2 * List.length s + 3 ≤ fuel2)%nat →
       JSON.parse_members fuel1 s acc = JSON.parse_members fuel2 s acc).
Proof.
  induction fuel1 as [|fuel1 (IHv & IHe & IHm)];
    [split; [|split]; intros; lia|].
  split; [|split].
  - intros s [|fuel2] H1 H2; [lia|]. cbn [JSON.parse_value].
    destruct (JSON.skip_ws s) as [|b r] eqn:Hs; [done|].
    apply skip_ws_cons in Hs.
    destruct (JSON.ch "{" b).
    { destruct (JSON.skip_ws r) as [|c r1] eqn:Hr; [done|].
      apply skip_ws_cons in Hr. case_match; [done|].
      apply IHm; simpl; lia. }
    destruct (JSON.ch "[" b); [|done].
    destruct (JSON.skip_ws r) as [|c r1] eqn:Hr; [done|].
    apply skip_ws_cons in Hr. case_match; [done|].
    apply IHe; simpl; lia.
  - intros s acc [|fuel2] H1 H2; [lia|]. cbn [JSON.parse_elements].
    rewrite (IHv s fuel2) by lia.
    destruct (JSON.parse_value fuel2 s) as [[v r]|] eqn:Hv; [|done].
    apply (proj1 (parse_consumes fuel2)) in Hv.
    destruct (JSON.skip_ws r) as [|c r1] eqn:Hr; [done|].
    apply skip_ws_cons in Hr. case_match; [|done].
    apply IHe; lia.
  - intros s acc [|fuel2] H1 H2; [lia|]. cbn [JSON.parse_members].
    destruct (JSON.skip_ws s) as [|q r] eqn:Hs; [done|].
    apply skip_ws_cons in Hs. case_match; [|done].
    destruct (JSON.string_body r) as [[key r1]|] eqn:Hkey; [|done].
    apply string_body_shorter in Hkey.
    destruct (JSON.skip_ws r1) as [|c r2] eqn:Hr1; [done|].
    apply skip_ws_cons in Hr1. case_match; [|done].
    rewrite (IHv r2 fuel2) by lia.
    destruct (JSON.parse_value fuel2 r2) as [[v r3]|] eqn:Hv; [|done].
    apply (proj1 (parse_consumes fuel2)) in Hv.
    destruct (JSON.skip_ws r3) as [|d r4] eqn:Hr3; [done|].
    apply skip_ws_cons in Hr3. case_match; [|done].
    apply IHm; lia.
Qed.

(** [JSON.parse] gives its value with any larger amount of fuel. *)
Lemma JSON_parse_fuel (text : list byte) (extra : nat) :
  JSON.parse_value (2 * List.length text + 2 + extra) text
  = JSON.parse_value (2 * List.length text + 2) text.
Proof. apply parse_stable; lia. Qed.

End JSONFacts.

(** ** The container parser *)

Section ParseFacts.

Implicit Types (b : Buffer.t).

Lemma lor_shiftl_byte (a w : Z) :
  0 ≤ a < 2 ^ 8 → Z.lor a (Z.shiftl w 8) = a + w * 2 ^ 8.
Proof.
  intros Ha. rewrite <- Z.shiftl_mul_pow2 by lia.
  rewrite <- Z.add_lor_land.
  replace (Z.land a (Z.shiftl w 8)) with 0; [lia|].
  symmetry. apply Z.bits_inj'. intros n Hn. rewrite Z.land_spec, Z.bits_0.
  destruct (Z.ltb_spec n 8).
  - rewrite Z.shiftl_spec_low by lia. apply andb_false_r.
  - rewrite (Z.bits_above_log2 a n); [reflexivity|lia|].
    destruct (Z.eq_dec a 0) as [->|]; [simpl; lia|].
    apply Z.log2_lt_pow2; [lia|].
    assert (2 ^ 8 ≤ 2 ^ n) by (apply Z.pow_le_mono_r; lia). lia.
Qed.

Lemma le_combine_4 (x0 x1 x2 x3 : byte) :
  le_combine [x0; x1; x2; x3]
  = byte.unsigned x0 + byte.unsigned x1 * 2 ^ 8
    + byte.unsigned x2 * 2 ^ 16 + byte.unsigned x3 * 2 ^ 24.
Proof.
  unfold le_combine.
  rewrite !lor_shiftl_byte by apply byte.unsigned_range. lia.
Qed.

Lemma u32_at_range (bytes : list byte) (offset : nat) :
  0 ≤ u32_at bytes offset < 2 ^ 32.
Proof.
  unfold u32_at.
  pose proof (le_combine_bound (take 4 (drop offset bytes))) as [Hlo Hhi].
  split; [done|]. eapply Z.lt_le_trans; [exact Hhi|].
  apply Z.pow_le_mono_r; [lia|]. rewrite length_take. lia.
Qed.

(** A 32-bit read inside the buffer returns the little-endian number. *)
Lemma readUInt32LE_in_range b (offset : Z) :
  0 ≤ offset → offset + 4 ≤ Z.of_nat (Buffer.length b) →
  Buffer.readUInt32LE b offset
  = Return (u32_at (Buffer.bytes b) (Z.to_nat offset)).
Proof.
  intros Hoff Hfit. unfold Buffer.length in Hfit.
  unfold Buffer.readUInt32LE, Buffer.get, u32_at.
  rewrite !(proj2 (Z.ltb_ge _ _)) by lia.
  replace (Z.to_nat (offset + 3)) with (Z.to_nat offset + 3)%nat by lia.
  replace (Z.to_nat (offset + 1)) with (Z.to_nat offset + 1)%nat by lia.
  replace (Z.to_nat (offset + 2)) with (Z.to_nat offset + 2)%nat by lia.
  rewrite <- (Nat.add_0_r (Z.to_nat offset)) at 1.
  rewrite <- !lookup_drop.
  destruct (drop (Z.to_nat offset) (Buffer.bytes b))
    as [|x0 [|x1 [|x2 [|x3 rest]]]] eqn:Hdrop;
    try (apply (f_equal List.length) in Hdrop;
         rewrite length_drop in Hdrop; simpl in Hdrop; lia).
  simpl. by rewrite le_combine_4.
Qed.

(** A 32-bit read that would run past the end throws. *)
Lemma readUInt32LE_out_of_range b (offset : Z) :
  Z.of_nat (Buffer.length b) < offset + 4 →
  Buffer.readUInt32LE b offset = Throw RangeError.
Proof.
  intros Hpast. unfold Buffer.length in Hpast.
  unfold Buffer.readUInt32LE.
  assert (Buffer.get b (offset + 3) = None) as ->.
  { unfold Buffer.get. case_match; [done|].
    rewrite (proj2 (lookup_ge_None _ _)); [done|]. lia. }
  by destruct (Buffer.get b offset).
Qed.

Lemma readUInt32LE_throws b (offset : Z) e :
  Buffer.readUInt32LE b offset = Throw e → e = RangeError.
Proof.
  unfold Buffer.readUInt32LE. repeat case_match; congruence.
Qed.

Lemma readUInt32LE_returns b (offset v : Z) :
  0 ≤ offset →
  Buffer.readUInt32LE b offset = Return v →
  offset + 4 ≤ Z.of_nat (Buffer.length b)
  ∧ v = u32_at (Buffer.bytes b) (Z.to_nat offset).
Proof.
  intros Hoff Hv.
  destruct (Z.le_gt_cases (offset + 4) (Z.of_nat (Buffer.length b))) as [Hfit|Hpast].
  - rewrite readUInt32LE_in_range in Hv by done. by injection Hv as <-.
  - rewrite readUInt32LE_out_of_range in Hv by lia. discriminate.
Qed.

Lemma JSON_parse_throws (text : list byte) e :
  JSON.parse text = Throw e → e = SyntaxError.
Proof. unfold JSON.parse. repeat case_match; congruence. Qed.

(** The signature compared is the first four bytes, each with its high
    bit cleared. *)
Lemma magic_bytes b :
  magic b
  = string_of_list_ascii (map Buffer.ascii_char (take 4 (Buffer.bytes b))).
Proof.
  unfold magic, Buffer.toString_ascii.
  by rewrite (subarray_bytes b 0 4 ltac:(lia) ltac:(lia)
              : Buffer.bytes (Buffer.subarray b 0 4) = _).
Qed.

Lemma magic_short b : (Buffer.length b < 4)%nat → magic b ≠ "glTF"%string.
Proof.
  intros Hshort Hmagic. rewrite magic_bytes in Hmagic.
  apply (f_equal list_ascii_of_string) in Hmagic.
  rewrite list_ascii_of_string_of_list_ascii in Hmagic.
  apply (f_equal List.length) in Hmagic.
  rewrite length_map, length_take in Hmagic.
  change (List.length (list_ascii_of_string "glTF")) with 4%nat in Hmagic.
  unfold Buffer.length in Hshort. lia.
Qed.

Lemma magic_glTF b :
  take 4 (Buffer.bytes b) = JSON.utf8 "glTF" → magic b = "glTF"%string.
Proof. intros Hsig. rewrite magic_bytes, Hsig. reflexivity. Qed.

(** A buffer of fewer than 20 bytes with the signature: one of the three
    header reads throws. *)
Lemma parseGLB_short_header b :
  magic b = "glTF"%string →
  Z.of_nat (Buffer.length b) < 20 →
  parseGLB b = Throw RangeError.
Proof.
  intros Hmagic Hshort. unfold parseGLB. rewrite Hmagic. simpl.
  destruct (Buffer.readUInt32LE b 8) as [totalLength|e] eqn:H8; simpl;
    [|by rewrite (readUInt32LE_throws _ _ _ H8)].
  destruct (Buffer.readUInt32LE b 12) as [len|e] eqn:H12; simpl;
    [|by rewrite (readUInt32LE_throws _ _ _ H12)].
  by rewrite (readUInt32LE_out_of_range b (12 + 4)) by lia.
Qed.

(** With the signature and a whole header, [parseGLB] in terms of the
    header fields. *)
Lemma parseGLB_chunks b :
  magic b = "glTF"%string →
  20 ≤ Z.of_nat (Buffer.length b) →
  let totalLength := u32_at (Buffer.bytes b) 8 in
  let jsonChunkLength := u32_at (Buffer.bytes b) 12 in
  let jsonChunkType := u32_at (Buffer.bytes b) 16 in
  parseGLB b
  = if negb (jsonChunkType =? JSON_TAG) then Throw MissingMetadataChunk
    else
      gltfData ← JSON.parse (take (Z.to_nat jsonChunkLength)
                                (drop 20 (Buffer.bytes b)));
      if 20 + jsonChunkLength <? totalLength then
        binaryChunkLength ← Buffer.readUInt32LE b (20 + jsonChunkLength);
        binaryChunkType ← Buffer.readUInt32LE b (24 + jsonChunkLength);
        if binaryChunkType =? BIN_TAG then
          mret (gltfData,
                Some (Buffer.subarray b (28 + jsonChunkLength)
                        (28 + jsonChunkLength + binaryChunkLength)))
        else mret (gltfData, None)
      else mret (gltfData, None).
Proof.
  intros Hmagic Hlen totalLength jsonChunkLength jsonChunkType.
  unfold parseGLB. rewrite Hmagic. simpl negb. cbv iota.
  rewrite (readUInt32LE_in_range b 8), (readUInt32LE_in_range b 12),
    (readUInt32LE_in_range b (12 + 4)) by lia.
  cbn [mbind completion_bind].
  change (Z.to_nat 8) with 8%nat. change (Z.to_nat 12) with 12%nat.
  change (Z.to_nat (12 + 4)) with 16%nat.
  fold totalLength jsonChunkLength jsonChunkType.
  destruct (negb (jsonChunkType =? JSON_TAG)); [done|].
  pose proof (u32_at_range (Buffer.bytes b) 12) as Hrange.
  fold jsonChunkLength in Hrange.
  rewrite (subarray_bytes b (12 + 8) jsonChunkLength) by lia.
  change (Z.to_nat (12 + 8)) with 20%nat.
  replace (12 + (8 + jsonChunkLength)) with (20 + jsonChunkLength) by lia.
  replace (20 + jsonChunkLength + 4) with (24 + jsonChunkLength) by lia.
  replace (20 + jsonChunkLength + 8) with (28 + jsonChunkLength) by lia.
  reflexivity.
Qed.

End ParseFacts.

(** ** The container parser: errors and chunks *)

(** What [parseGLB] can throw, and when. *)
Lemma parseGLB_throws (b : Buffer.t) (e : JsError) :
  parseGLB b = Throw e →
  (magic b ≠ "glTF"%string ∧ e = InvalidSignature)
  ∨ (magic b = "glTF"%string
     ∧ (e = RangeError
        ∨ e = SyntaxError
        ∨ (e = MissingMetadataChunk
           ∧ 20 ≤ Z.of_nat (Buffer.length b)
           ∧ u32_at (Buffer.bytes b) 16 ≠ JSON_TAG))).
Proof.
  intros Hthrow.
  destruct (String.eqb (magic b) "glTF") eqn:Hmagic.
  - apply String.eqb_eq in Hmagic. right. split; [done|].
    destruct (Z.lt_ge_cases (Z.of_nat (Buffer.length b)) 20) as [Hshort|Hlen].
    + rewrite (parseGLB_short_header b Hmagic Hshort) in Hthrow.
      left. congruence.
    + rewrite (parseGLB_chunks b Hmagic Hlen) in Hthrow.
      destruct (u32_at (Buffer.bytes b) 16 =? JSON_TAG) eqn:Htag; simpl in Hthrow.
      * destruct (JSON.parse _) as [gltfData|e'] eqn:Hjson; simpl in Hthrow.
        -- destruct (_ <? _); [|discriminate].
           destruct (Buffer.readUInt32LE b (20 + _)) as [len2|e2] eqn:Hlen2;
             simpl in Hthrow;
             [|left; apply readUInt32LE_throws in Hlen2; congruence].
           destruct (Buffer.readUInt32LE b (24 + _)) as [tag2|e2] eqn:Htag2;
             simpl in Hthrow;
             [|left; apply readUInt32LE_throws in Htag2; congruence].
           by destruct (tag2 =? BIN_TAG).
        -- right; left. apply JSON_parse_throws in Hjson. congruence.
      * right; right. apply Z.eqb_neq in Htag.
        split; [congruence|]. by split.
  - apply String.eqb_neq in Hmagic. left. split; [done|].
    unfold parseGLB in Hthrow.
    rewrite (proj2 (String.eqb_neq _ _) Hmagic) in Hthrow.
    simpl in Hthrow. congruence.
Qed.

(** The parts of the signature check that hold: a signature that differs
    from [glTF] after the high bits are cleared is refused, so is every
    buffer of fewer than four bytes, and the signature itself is never
    refused. *)
Lemma parseGLB_refuses_other_magic (b : Buffer.t) :
  magic b ≠ "glTF"%string → parseGLB b = Throw InvalidSignature.
Proof.
  intros Hmagic. unfold parseGLB.
  by rewrite (proj2 (String.eqb_neq _ _) Hmagic).
Qed.

Lemma parseGLB_refuses_short_buffer (b : Buffer.t) :
  (Buffer.length b < 4)%nat → parseGLB b = Throw InvalidSignature.
Proof. intros Hshort. by apply parseGLB_refuses_other_magic, magic_short. Qed.

Lemma parseGLB_accepts_glTF (b : Buffer.t) :
  take 4 (Buffer.bytes b) = JSON.utf8 "glTF" →
  parseGLB b ≠ Throw InvalidSignature.
Proof.
  intros Hsig%magic_glTF Hthrow.
  destruct (parseGLB_throws b _ Hthrow) as [[Hne _]|[_ [H|[H|[H _]]]]];
    [done|discriminate H..].
Qed.

(** C6. The first four bytes of [high_bit_signature] are not the signature,
    and [parseGLB] accepts the buffer: the comparison is made on the text
    decoded as ASCII, where the high bit of a byte is dropped. *)
Theorem parseGLB_accepts_high_bit_signature :
  take 4 (Buffer.bytes high_bit_signature) ≠ JSON.utf8 "glTF"
  ∧ magic high_bit_signature = "glTF"%string
  ∧ parseGLB high_bit_signature = Return (JSON.Object [], None).
Proof. split; [discriminate|]. split; reflexivity. Qed.

(** C7. With the signature accepted, the chunk length and the chunk type
    are the little-endian 32-bit numbers at bytes 12 and 16, and the parse
    throws the missing-metadata error exactly when the type read at byte 16
    is not the JSON tag; a buffer too short for these reads ends in the
    range error of the read. *)
Theorem first_chunk_tag_decides (b : Buffer.t) :
  magic b = "glTF"%string →
  (20 ≤ Z.of_nat (Buffer.length b) →
   Buffer.readUInt32LE b 12 = Return (u32_at (Buffer.bytes b) 12)
   ∧ Buffer.readUInt32LE b (12 + 4) = Return (u32_at (Buffer.bytes b) 16))
  ∧ (Z.of_nat (Buffer.length b) < 20 → parseGLB b = Throw RangeError)
  ∧ (parseGLB b = Throw MissingMetadataChunk
     ↔ ∃ jsonChunkType,
         Buffer.readUInt32LE b (12 + 4) = Return jsonChunkType
         ∧ jsonChunkType ≠ JSON_TAG).
Proof.
  intros Hmagic. split; [|split].
  - intros Hlen. split; by rewrite readUInt32LE_in_range by lia.
  - by apply parseGLB_short_header.
  - split.
    + intros Hthrow.
      destruct (parseGLB_throws b _ Hthrow) as [[Hne _]|[_ [H|[H|(_ & Hlen & Htag)]]]];
        [done|discriminate H..|].
      exists (u32_at (Buffer.bytes b) 16).
      split; [by rewrite readUInt32LE_in_range by lia|done].
    + intros (jsonChunkType & Hread & Htag).
      apply readUInt32LE_returns in Hread as [Hlen ->]; [|lia].
      rewrite parseGLB_chunks by (done || lia).
      change (Z.to_nat (12 + 4)) with 16%nat in Htag.
      by rewrite (proj2 (Z.eqb_neq _ _) Htag).
Qed.

Lemma first_chunk_tag_decides_witness :
  magic binary_chunk_first = "glTF"%string
  ∧ Buffer.readUInt32LE binary_chunk_first 16 = Return BIN_TAG
  ∧ parseGLB binary_chunk_first = Throw MissingMetadataChunk.
Proof.
  split; [reflexivity|]. split; [reflexivity|].
  apply (proj2 (proj2 (first_chunk_tag_decides binary_chunk_first eq_refl))).
  exists BIN_TAG. split; [reflexivity|discriminate].
Defined.

(** The data of the binary chunk is declared to end at byte 330 of a
    buffer of 33 bytes, and the parse returns the three bytes there are. *)
Lemma chunk_data_past_end_is_not_refused :
  Z.of_nat (Buffer.length long_declared_binary) = 33
  ∧ u32_at (Buffer.bytes long_declared_binary) 22 = 300
  ∧ ∃ binaryBuffer,
      parseGLB long_declared_binary = Return (JSON.Object [], Some binaryBuffer)
      ∧ Buffer.bytes binaryBuffer = [x01; x02; x03].
Proof. split; [reflexivity|]. split; [reflexivity|]. eexists. split; reflexivity. Qed.

(** The same for the metadata chunk: 200 bytes declared, 2 parsed. *)
Example metadata_past_end_is_not_refused :
  Z.of_nat (Buffer.length long_declared_metadata) = 22
  ∧ u32_at (Buffer.bytes long_declared_metadata) 12 = 200
  ∧ parseGLB long_declared_metadata = Return (JSON.Object [], None).
Proof. repeat split. Qed.

(** C8, amended. With the signature accepted, a header field or a chunk
    header that does not lie inside the buffer makes the parse throw the
    range error of the 32-bit read: the three reads at bytes 8, 12 and 16,
    and the second chunk header when the cursor is below the total length.
    The parse throws that error in these cases and in no other: a data
    range that runs past the end of the buffer is never refused.  The data
    of a chunk is taken with a clamping subarray.  When the first chunk is
    tagged JSON and the bytes the buffer has in its declared range parse,
    the parse returns whenever the chunk headers lie inside the buffer,
    however long the declared ranges are: the metadata parsed from those
    bytes, and for a second chunk tagged BIN the bytes the buffer has in
    its declared range.  Conversely, whatever the parse returns was made
    this way. *)
Theorem header_reads_checked_data_clamped (b : Buffer.t) :
  magic b = "glTF"%string →
  let totalLength := u32_at (Buffer.bytes b) 8 in
  let jsonChunkLength := u32_at (Buffer.bytes b) 12 in
  let jsonData :=
    take (Z.to_nat jsonChunkLength) (drop 20 (Buffer.bytes b)) in
  let binaryChunkLength :=
    u32_at (Buffer.bytes b) (Z.to_nat (20 + jsonChunkLength)) in
  let binaryChunkType :=
    u32_at (Buffer.bytes b) (Z.to_nat (24 + jsonChunkLength)) in
  let binaryBuffer :=
    Buffer.subarray b (28 + jsonChunkLength)
      (28 + jsonChunkLength + binaryChunkLength) in
  (Z.of_nat (Buffer.length b) < 20 → parseGLB b = Throw TruncatedContainer)
  ∧ (∀ gltfData,
       20 ≤ Z.of_nat (Buffer.length b) →
       u32_at (Buffer.bytes b) 16 = JSON_TAG →
       JSON.parse jsonData = Return gltfData →
       20 + jsonChunkLength < totalLength →
       Z.of_nat (Buffer.length b) < 28 + jsonChunkLength →
       parseGLB b = Throw TruncatedContainer)
  ∧ (∀ gltfData binary,
       parseGLB b = Return (gltfData, binary) →
       20 ≤ Z.of_nat (Buffer.length b)
       ∧ JSON.parse jsonData = Return gltfData
       ∧ ∀ binaryBuffer,
           binary = Some binaryBuffer →
           28 + jsonChunkLength ≤ Z.of_nat (Buffer.length b)
           ∧ Buffer.bytes binaryBuffer
             = take (Z.to_nat (u32_at (Buffer.bytes b)
                                 (Z.to_nat (20 + jsonChunkLength))))
                    (drop (Z.to_nat (28 + jsonChunkLength)) (Buffer.bytes b)))
  ∧ (parseGLB b = Throw TruncatedContainer
     ↔ Z.of_nat (Buffer.length b) < 20
       ∨ (u32_at (Buffer.bytes b) 16 = JSON_TAG
          ∧ returns (JSON.parse jsonData) = true
          ∧ 20 + jsonChunkLength < totalLength
          ∧ Z.of_nat (Buffer.length b) < 28 + jsonChunkLength))
  ∧ (∀ gltfData,
       20 ≤ Z.of_nat (Buffer.length b) →
       u32_at (Buffer.bytes b) 16 = JSON_TAG →
       JSON.parse jsonData = Return gltfData →
       (totalLength ≤ 20 + jsonChunkLength →
        parseGLB b = Return (gltfData, None))
       ∧ (20 + jsonChunkLength < totalLength →
          28 + jsonChunkLength ≤ Z.of_nat (Buffer.length b) →
          parseGLB b
          = Return (gltfData,
                    if binaryChunkType =? BIN_TAG then Some binaryBuffer
                    else None)
          ∧ Buffer.bytes binaryBuffer
            = take (Z.to_nat binaryChunkLength)
                (drop (Z.to_nat (28 + jsonChunkLength)) (Buffer.bytes b)))).
Proof.
  intros Hmagic totalLength jsonChunkLength jsonData binaryChunkLength
    binaryChunkType binaryBuffer.
  pose proof (u32_at_range (Buffer.bytes b) 12) as Hrange.
  fold jsonChunkLength in Hrange.
  assert (∀ gltfData,
            20 ≤ Z.of_nat (Buffer.length b) →
            u32_at (Buffer.bytes b) 16 = JSON_TAG →
            JSON.parse jsonData = Return gltfData →
            20 + jsonChunkLength < totalLength →
            Z.of_nat (Buffer.length b) < 28 + jsonChunkLength →
            parseGLB b = Throw TruncatedContainer) as Hheader2.
  { intros gltfData Hlen Htag Hjson Hcursor Hpast.
    rewrite parseGLB_chunks by done. fold totalLength jsonChunkLength jsonData.
    rewrite Htag, Hjson. simpl.
    rewrite (proj2 (Z.ltb_lt _ _) Hcursor).
    destruct (Buffer.readUInt32LE b (20 + jsonChunkLength)) as [len2|e] eqn:Hlen2;
      simpl; [|by rewrite (readUInt32LE_throws _ _ _ Hlen2)].
    by rewrite (readUInt32LE_out_of_range b (24 + jsonChunkLength)) by lia. }
  assert (∀ gltfData,
            20 ≤ Z.of_nat (Buffer.length b) →
            u32_at (Buffer.bytes b) 16 = JSON_TAG →
            JSON.parse jsonData = Return gltfData →
            20 + jsonChunkLength < totalLength →
            28 + jsonChunkLength ≤ Z.of_nat (Buffer.length b) →
            parseGLB b
            = Return (gltfData,
                      if binaryChunkType =? BIN_TAG then Some binaryBuffer
                      else None)) as Hsecond.
  { intros gltfData Hlen Htag Hjson Hcursor Hfit.
    rewrite parseGLB_chunks by done. fold totalLength jsonChunkLength jsonData.
    rewrite Htag, Hjson. simpl.
    rewrite (proj2 (Z.ltb_lt _ _) Hcursor).
    rewrite (readUInt32LE_in_range b (20 + jsonChunkLength)),
      (readUInt32LE_in_range b (24 + jsonChunkLength)) by lia.
    simpl. fold binaryChunkLength binaryChunkType binaryBuffer.
    by destruct (binaryChunkType =? BIN_TAG). }
  split; [by apply parseGLB_short_header|]. split; [exact Hheader2|].
  split; [|split].
  - intros gltfData binary Hret.
    assert (20 ≤ Z.of_nat (Buffer.length b)) as Hlen.
    { destruct (Z.lt_ge_cases (Z.of_nat (Buffer.length b)) 20) as [Hshort|]; [|done].
      by rewrite (parseGLB_short_header b Hmagic Hshort) in Hret. }
    rewrite parseGLB_chunks in Hret by done.
    fold totalLength jsonChunkLength jsonData in Hret.
    destruct (negb _); [discriminate|].
    destruct (JSON.parse jsonData) as [g|e]; [|discriminate]. simpl in Hret.
    destruct (_ <? _).
    + destruct (Buffer.readUInt32LE b (20 + jsonChunkLength)) as [len2|e] eqn:Hlen2;
        [|discriminate]. simpl in Hret.
      destruct (Buffer.readUInt32LE b (24 + jsonChunkLength)) as [tag2|e] eqn:Htag2;
        [|discriminate]. simpl in Hret.
      apply readUInt32LE_returns in Hlen2 as [Hfit2 ->]; [|lia].
      apply readUInt32LE_returns in Htag2 as [Hfit3 _]; [|lia].
      destruct (tag2 =? BIN_TAG); injection Hret as <- <-;
        (split; [done|]); (split; [done|]); intros binaryBuffer' [= <-].
      split; [lia|].
      apply subarray_bytes; [lia|].
      apply (proj1 (u32_at_range _ _)).
    + injection Hret as <- <-. split; [done|]. split; [done|]. by intros ? [=].
  - split.
    + intros Hthrow.
      destruct (Z.lt_ge_cases (Z.of_nat (Buffer.length b)) 20) as [Hshort|Hlen];
        [by left|right].
      destruct (Z.eq_dec (u32_at (Buffer.bytes b) 16) JSON_TAG) as [Htag|Htag].
      * destruct (JSON.parse jsonData) as [g|e] eqn:Hjson.
        -- destruct (Z.lt_ge_cases (20 + jsonChunkLength) totalLength)
             as [Hcursor|Hcursor].
           ++ destruct (Z.lt_ge_cases (Z.of_nat (Buffer.length b))
                          (28 + jsonChunkLength)) as [Hpast|Hfit]; [done|].
              by rewrite (Hsecond g Hlen Htag eq_refl Hcursor Hfit) in Hthrow.
           ++ rewrite parseGLB_chunks in Hthrow by done.
              fold totalLength jsonChunkLength jsonData in Hthrow.
              rewrite Htag, Hjson in Hthrow. simpl in Hthrow.
              by rewrite (proj2 (Z.ltb_ge _ _) Hcursor) in Hthrow.
        -- rewrite parseGLB_chunks in Hthrow by done.
           fold totalLength jsonChunkLength jsonData in Hthrow.
           rewrite Htag, Hjson in Hthrow. simpl in Hthrow.
           apply JSON_parse_throws in Hjson. subst e.
           unfold TruncatedContainer in Hthrow. discriminate Hthrow.
      * rewrite parseGLB_chunks in Hthrow by done.
        by rewrite (proj2 (Z.eqb_neq _ _) Htag) in Hthrow.
    + intros [Hshort|(Htag & Hjson & Hcursor & Hpast)];
        [by apply parseGLB_short_header|].
      destruct (Z.lt_ge_cases (Z.of_nat (Buffer.length b)) 20) as [Hshort|Hlen];
        [by apply parseGLB_short_header|].
      destruct (JSON.parse jsonData) as [g|e] eqn:Hg; [|discriminate].
      by apply (Hheader2 g).
  - intros gltfData Hlen Htag Hjson. split.
    + intros Hcursor.
      rewrite parseGLB_chunks by done. fold totalLength jsonChunkLength jsonData.
      rewrite Htag, Hjson. simpl.
      by rewrite (proj2 (Z.ltb_ge _ _) Hcursor).
    + intros Hcursor Hfit. split; [by apply Hsecond|].
      apply subarray_bytes; [lia|].
      apply (proj1 (u32_at_range _ _)).
Qed.

Lemma header_reads_checked_data_clamped_witness :
  parseGLB (Buffer.of_bytes (JSON.utf8 "glTF")) = Throw TruncatedContainer
  ∧ JSON.parse (take 200 (drop 20 (Buffer.bytes long_declared_metadata)))
    = Return (JSON.Object [])
  ∧ parseGLB long_declared_metadata = Return (JSON.Object [], None)
  ∧ parseGLB long_declared_binary
    = Return (JSON.Object [], Some (Buffer.subarray long_declared_binary 30 330))
  ∧ Buffer.bytes (Buffer.subarray long_declared_binary 30 330) = [x01; x02; x03].
Proof.
  split; [|split; [|split]].
  - apply (proj1 (header_reads_checked_data_clamped
                    (Buffer.of_bytes (JSON.utf8 "glTF")) eq_refl)).
    vm_compute. reflexivity.
  - apply (proj1 (proj2 (proj2 (header_reads_checked_data_clamped
                                  long_declared_metadata eq_refl)))
             (JSON.Object []) None).
    reflexivity.
  - destruct (proj2 (proj2 (proj2 (proj2 (header_reads_checked_data_clamped
                                            long_declared_metadata eq_refl))))
                (JSON.Object [])
                ltac:(vm_compute; discriminate) eq_refl eq_refl)
      as [Hfirst _].
    apply Hfirst. vm_compute. discriminate.
  - destruct (proj2 (proj2 (proj2 (proj2 (header_reads_checked_data_clamped
                                            long_declared_binary eq_refl))))
                (JSON.Object [])
                ltac:(vm_compute; discriminate) eq_refl eq_refl)
      as [_ Hsecond].
    destruct (Hsecond ltac:(vm_compute; reflexivity)
                ltac:(vm_compute; discriminate)) as [Hparse Hbytes].
    split; [exact Hparse|exact Hbytes].
Defined.

(** The declared total length 0 agrees with no chunk table, and the parse
    returns: the metadata, and no binary range although the binary chunk
    is there. *)
Lemma inconsistent_total_length_is_not_refused :
  total_length_consistent total_length_zero = false
  ∧ u32_at (Buffer.bytes total_length_zero) 8 = 0
  ∧ parseGLB total_length_zero = Return (JSON.Object [], None).
Proof. repeat split. Qed.

(** C9, amended. The declared total length is not compared with the chunk
    table.  With the signature, a whole header, the JSON tag and metadata
    that parses, the total length decides one thing, after the metadata
    chunk has been read: when the cursor [20 + len1] is not below it the
    parse returns the metadata and no binary range, and otherwise a second
    chunk header is read at the cursor. *)
Theorem total_length_gates_second_chunk (b : Buffer.t) (gltfData : JSON.value) :
  magic b = "glTF"%string →
  20 ≤ Z.of_nat (Buffer.length b) →
  u32_at (Buffer.bytes b) 16 = JSON_TAG →
  let totalLength := u32_at (Buffer.bytes b) 8 in
  let jsonChunkLength := u32_at (Buffer.bytes b) 12 in
  JSON.parse (take (Z.to_nat jsonChunkLength) (drop 20 (Buffer.bytes b)))
  = Return gltfData →
  (totalLength ≤ 20 + jsonChunkLength → parseGLB b = Return (gltfData, None))
  ∧ (20 + jsonChunkLength < totalLength →
     parseGLB b
     = (binaryChunkLength ← Buffer.readUInt32LE b (20 + jsonChunkLength);
        binaryChunkType ← Buffer.readUInt32LE b (24 + jsonChunkLength);
        if binaryChunkType =? BIN_TAG then
          mret (gltfData,
                Some (Buffer.subarray b (28 + jsonChunkLength)
                        (28 + jsonChunkLength + binaryChunkLength)))
        else mret (gltfData, None))).
Proof.
  intros Hmagic Hlen Htag totalLength jsonChunkLength Hjson.
  rewrite parseGLB_chunks by done. fold totalLength jsonChunkLength.
  rewrite Htag, Hjson. simpl. split.
  - intros Hle. by rewrite (proj2 (Z.ltb_ge _ _) Hle).
  - intros Hlt. by rewrite (proj2 (Z.ltb_lt _ _) Hlt).
Qed.

Lemma total_length_gates_second_chunk_witness :
  total_length_consistent total_length_zero = false
  ∧ parseGLB total_length_zero = Return (JSON.Object [], None).
Proof.
  split; [reflexivity|].
  apply (proj1 (total_length_gates_second_chunk total_length_zero (JSON.Object [])
                  eq_refl ltac:(vm_compute; discriminate) eq_refl eq_refl)).
  vm_compute. discriminate.
Defined.

(** * Further properties *)

Local Set Warnings "-clear-no-such-hyp".

(** ** The decoder on every window *)

Section DecoderFacts.

Implicit Types (accessor : Accessor.t) (bufferView : BufferView.t).
Implicit Types (binaryBuffer : Buffer.t) (componentType : ComponentType.t).

(** The bytes of a subarray depend on the bytes of the view only, not on
    the store around it. *)
Lemma subarray_bytes_only (b1 b2 : Buffer.t) (from to : jsnum) :
  Buffer.bytes b1 = Buffer.bytes b2 →
  Buffer.bytes (Buffer.subarray b1 from to)
  = Buffer.bytes (Buffer.subarray b2 from to).
Proof.
  intros Hbytes. unfold Buffer.subarray, Buffer.length; simpl.
  by rewrite Hbytes.
Qed.

Lemma decodeGroups_bytes_only accessor (bufferView : option BufferView.t)
    (b1 b2 : Buffer.t) componentType typeSize :
  Buffer.bytes b1 = Buffer.bytes b2 →
  decodeGroups componentType typeSize accessor bufferView b1
  = decodeGroups componentType typeSize accessor bufferView b2.
Proof.
  intros Hbytes. unfold decodeGroups. destruct bufferView as [bufferView|]; [|done].
  rewrite !arrayBuffer_bytes. unfold rawBytes.
  by rewrite (subarray_bytes_only b1 b2 _ _ Hbytes).
Qed.

(** The general form of the grouping loop: from index [i] on, the groups
    cut the rest of the values into runs of [typeSize], the last one
    shorter when the rest is no multiple; the group at position [j] is the
    run that starts [j * typeSize] values after [i]. *)
Lemma group_loop_cuts (typeSize : nat) (values : list number) :
  (0 < typeSize)%nat →
  ∀ (fuel i : nat) (acc : list grouped),
    (List.length values ≤ i + fuel)%nat →
    ∃ groups,
      group_loop fuel (Some typeSize) values i acc = acc ++ groups
      ∧ concat (map components groups) = drop i values
      ∧ List.length groups
        = ((List.length values - i + (typeSize - 1)) / typeSize)%nat
      ∧ Forall (fun g => (1 ≤ List.length (components g) ≤ typeSize)%nat
                         ∧ (if (typeSize =? 1)%nat
                            then ∃ v, g = Bare v else ∃ vs, g = Group vs))
               groups
      ∧ ∀ (j : nat) g,
          groups !! j = Some g →
          components g = take typeSize (drop (i + j * typeSize) values).
Proof.
  intros Hts. induction fuel as [|fuel IH]; intros i acc Hfuel.
  - exists []. rewrite app_nil_r, drop_ge by lia. simpl.
    replace (List.length values - i)%nat with 0%nat by lia.
    rewrite Nat.div_small by lia. done.
  - simpl. destruct (values !! i) as [v|] eqn:Hv.
    + pose proof (lookup_lt_Some _ _ _ Hv) as Hi.
      destruct (IH (i + typeSize)%nat
                  (acc ++ [if (typeSize =? 1)%nat then Bare v
                           else Group (take typeSize (drop i values))])
                  ltac:(lia))
        as (groups & -> & Hconcat & Hlen & Hall & Hrun).
      set (g := if (typeSize =? 1)%nat then Bare v
                else Group (take typeSize (drop i values))).
      assert (components g = take typeSize (drop i values)) as Hg.
      { unfold g. destruct (typeSize =? 1)%nat eqn:Hone; [|done].
        apply Nat.eqb_eq in Hone. subst typeSize. simpl.
        rewrite (drop_S _ _ _ Hv). done. }
      exists (g :: groups). split; [by rewrite <- app_assoc|].
      split; [|split; [|split]].
      * simpl. rewrite Hg, Hconcat, <- drop_drop. apply take_drop.
      * simpl. rewrite Hlen.
        set (d := (List.length values - i)%nat).
        assert (1 ≤ d)%nat by (unfold d; lia).
        replace (d + (typeSize - 1))%nat with (d - 1 + 1 * typeSize)%nat by lia.
        rewrite Nat.div_add by lia.
        destruct (Nat.le_gt_cases typeSize d) as [Hbig|Hsmall].
        -- replace (List.length values - (i + typeSize) + (typeSize - 1))%nat
             with (d - 1)%nat by (unfold d; lia). lia.
        -- replace (List.length values - (i + typeSize))%nat with 0%nat
             by (unfold d in *; lia).
           rewrite !Nat.div_small by lia. lia.
      * constructor; [|done]. split.
        -- rewrite Hg, length_take, length_drop. lia.
        -- unfold g. destruct (typeSize =? 1)%nat; by eexists.
      * intros [|j] g' Hj; simpl in Hj.
        -- injection Hj as <-. by rewrite Nat.add_0_r.
        -- rewrite (Hrun j g' Hj). do 2 f_equal. lia.
    + apply lookup_ge_None in Hv. exists [].
      rewrite app_nil_r, drop_ge by lia. simpl.
      replace (List.length values - i)%nat with 0%nat by lia.
      rewrite Nat.div_small by lia. done.
Qed.

End DecoderFacts.

(** X1. Grouping keeps every value, in order: for a recognized shape and any
    number of values, the groups laid end to end are the values; there are
    as many groups as runs of [typeSize] values, the last run counted when
    it is short; no group is empty or longer than [typeSize]; the groups
    are bare numbers exactly for the scalar shape.  The group at position
    [j] holds the values from position [j * typeSize] on, [typeSize] of
    them or as many as are left, and every group but the last holds
    exactly [typeSize] values: only the last group can be short. *)
Theorem grouping_keeps_values (shape : string) (typeSize : nat)
    (values : list number) :
  TYPE_SIZES shape = Some typeSize →
  let groups := groupedValues (Some typeSize) values in
  concat (map components groups) = values
  ∧ List.length groups
    = ((List.length values + (typeSize - 1)) / typeSize)%nat
  ∧ Forall (fun g => (1 ≤ List.length (components g) ≤ typeSize)%nat) groups
  ∧ (typeSize = 1%nat → Forall (fun g => ∃ v, g = Bare v) groups)
  ∧ (typeSize ≠ 1%nat → Forall (fun g => ∃ vs, g = Group vs) groups)
  ∧ (∀ (j : nat) g,
       groups !! j = Some g →
       components g = take typeSize (drop (j * typeSize) values))
  ∧ (∀ (j : nat) g,
       groups !! j = Some g →
       (S j < List.length groups)%nat →
       List.length (components g) = typeSize).
Proof.
  intros Hts%type_size_pos groups.
  destruct (group_loop_cuts typeSize values Hts (List.length values) 0 []
              ltac:(lia)) as (gs & Hgs & Hconcat & Hlen & Hall & Hrun).
  unfold groups, groupedValues. rewrite Hgs. simpl.
  rewrite Nat.sub_0_r in Hlen.
  split; [done|]. split; [done|].
  split; [|split; [|split; [|split]]].
  - eapply Forall_impl; [exact Hall|]. by intros g [? _].
  - intros ->. eapply Forall_impl; [exact Hall|]. by intros g [_ ?].
  - intros Hne%Nat.eqb_neq. eapply Forall_impl; [exact Hall|].
    intros g [_ Hg]. by rewrite Hne in Hg.
  - intros j g Hj. exact (Hrun j g Hj).
  - intros j g Hj Hlast. rewrite (Hrun j g Hj), length_take, length_drop.
    simpl. rewrite Hlen in Hlast.
    pose proof (Nat.Div0.mul_div_le (List.length values + (typeSize - 1))
                  typeSize) as Hdiv.
    nia.
Qed.

Lemma grouping_keeps_values_witness :
  List.length (groupedValues (Some 3%nat) [Int 1; Int 2; Int 3; Int 4]) = 2%nat
  ∧ List.length (components (Group [Int 1; Int 2; Int 3])) = 3%nat.
Proof.
  destruct (grouping_keeps_values "VEC3" 3 [Int 1; Int 2; Int 3; Int 4] eq_refl)
    as (_ & Hlen & _ & _ & _ & _ & Hfull).
  split; [exact Hlen|].
  apply (Hfull 0%nat (Group [Int 1; Int 2; Int 3]) eq_refl).
  vm_compute. lia.
Defined.

(** X2. The decode sees the bytes of the view it is given and nothing of
    the store around the view: a view into a larger store decodes as a
    buffer of its own that holds the same bytes. *)
Theorem decode_ignores_store (accessor : Accessor.t)
    (bufferView : option BufferView.t) (binaryBuffer : Buffer.t) :
  extractAccessorData accessor bufferView binaryBuffer
  = extractAccessorData accessor bufferView
      (Buffer.of_bytes (Buffer.bytes binaryBuffer)).
Proof.
  unfold extractAccessorData.
  destruct (COMPONENT_TYPES _) as [componentType|]; [|done].
  by rewrite (decodeGroups_bytes_only accessor bufferView binaryBuffer
                (Buffer.of_bytes (Buffer.bytes binaryBuffer))).
Qed.

(** X3. With a recognized component type and shape, and a start and a count
    that are not negative, the result depends on the bytes of the window
    only: two buffers that agree on the window give the same result or the
    same throw. *)
Theorem decode_reads_window_only (accessor : Accessor.t)
    (bufferView : BufferView.t) (b1 b2 : Buffer.t)
    (componentType : ComponentType.t) (typeSize : nat) :
  COMPONENT_TYPES (Accessor.componentType accessor) = Some componentType →
  TYPE_SIZES (Accessor.type accessor) = Some typeSize →
  let start := Z.to_nat (byteOffset accessor bufferView) in
  let len :=
    Z.to_nat (Accessor.count accessor
              * (ComponentType.size componentType * Z.of_nat typeSize)) in
  0 ≤ byteOffset accessor bufferView → 0 ≤ Accessor.count accessor →
  take len (drop start (Buffer.bytes b1)) = take len (drop start (Buffer.bytes b2)) →
  extractAccessorData accessor (Some bufferView) b1
  = extractAccessorData accessor (Some bufferView) b2.
Proof.
  intros Hct Hts start len Hstart Hcount Hwindow.
  pose proof (component_size _ _ Hct) as Hsize.
  unfold extractAccessorData. rewrite Hct, Hts.
  rewrite !(decodeGroups_window accessor bufferView _ componentType (Some typeSize)
              (Accessor.count accessor
               * (ComponentType.size componentType * Z.of_nat typeSize)));
    [|done|done|nia|done|done|nia].
  fold start len. by rewrite Hwindow.
Qed.

Lemma decode_reads_window_only_witness :
  extractAccessorData scalar_ubyte_3 (Some (BufferView.mk (Some 1)))
    (Buffer.of_bytes [x00; x01; x02; x03; x04])
  = extractAccessorData scalar_ubyte_3 (Some (BufferView.mk (Some 1)))
      (Buffer.of_bytes [xff; x01; x02; x03; xee; xdd]).
Proof.
  apply (decode_reads_window_only scalar_ubyte_3 (BufferView.mk (Some 1)) _ _
           (ComponentType.mk "UNSIGNED_BYTE" 1 Uint8Array) 1 eq_refl eq_refl);
    [vm_compute; discriminate | vm_compute; discriminate | reflexivity].
Defined.

(** X4. With a recognized component type and shape, a buffer view, and a
    start and a count that are not negative, the decode throws exactly when
    the number of bytes the buffer has in the window is no multiple of the
    component size, and what it throws then is the range error of the
    typed-array constructor; otherwise it returns. *)
Theorem decode_throws_iff_ragged_window (accessor : Accessor.t)
    (bufferView : BufferView.t) (binaryBuffer : Buffer.t)
    (componentType : ComponentType.t) (typeSize : nat) :
  COMPONENT_TYPES (Accessor.componentType accessor) = Some componentType →
  TYPE_SIZES (Accessor.type accessor) = Some typeSize →
  0 ≤ byteOffset accessor bufferView → 0 ≤ Accessor.count accessor →
  let window :=
    take (Z.to_nat (Accessor.count accessor
                    * (ComponentType.size componentType * Z.of_nat typeSize)))
         (drop (Z.to_nat (byteOffset accessor bufferView))
               (Buffer.bytes binaryBuffer)) in
  let ragged :=
    (List.length window mod Z.to_nat (ComponentType.size componentType))%nat in
  (ragged ≠ 0%nat →
   extractAccessorData accessor (Some bufferView) binaryBuffer = Throw RangeError)
  ∧ (ragged = 0%nat →
     returns (extractAccessorData accessor (Some bufferView) binaryBuffer) = true).
Proof.
  intros Hct Hts Hstart Hcount window ragged.
  pose proof (component_size _ _ Hct) as Hsize.
  assert (Z.to_nat (ComponentType.size componentType)
          = BYTES_PER_ELEMENT (ComponentType.array componentType)) as Hsz by lia.
  unfold ragged. rewrite Hsz.
  assert (decodeGroups componentType (Some typeSize) accessor (Some bufferView)
            binaryBuffer
          = (values ← new_TypedArray (ComponentType.array componentType) window;
             mret (groupedValues (Some typeSize) values))) as Hdecode.
  { apply decodeGroups_window; [done|done|nia]. }
  split.
  - intros Hragged. apply (extractAccessorData_throws _ _ _ componentType); [done|].
    rewrite Hts, Hdecode. by rewrite new_TypedArray_throws.
  - intros Hwhole.
    destruct (new_TypedArray_returns _ window Hwhole) as (values & Hvalues & _).
    rewrite (extractAccessorData_decoded _ _ _ componentType
               (groupedValues (Some typeSize) values)); [done|done|].
    rewrite Hts, Hdecode. by rewrite Hvalues.
Qed.

Lemma decode_throws_iff_ragged_window_witness :
  extractAccessorData vec3_short_3 (Some (BufferView.mk None))
    (Buffer.of_bytes (bytes_upto 13)) = Throw RangeError.
Proof.
  apply (proj1 (decode_throws_iff_ragged_window vec3_short_3 (BufferView.mk None)
                  (Buffer.of_bytes (bytes_upto 13))
                  (ComponentType.mk "SHORT" 2 Int16Array) 3 eq_refl eq_refl
                  ltac:(vm_compute; discriminate) ltac:(vm_compute; discriminate))).
  vm_compute. discriminate.
Defined.

(** X5. An accessor with a recognized component type and no buffer view to
    go with it, because it names none or names one the document does not
    have, makes the decode throw a type error, whatever its shape and the
    buffer; the walk over the attributes stops there with that error. *)
Theorem missing_buffer_view_aborts (gltfData : Gltf.t) (binaryBuffer : Buffer.t)
    (accessor : Accessor.t) (accessorIndex : Z) :
  at_index (Gltf.accessors gltfData) accessorIndex = Some accessor →
  is_Some (COMPONENT_TYPES (Accessor.componentType accessor)) →
  Accessor.bufferView accessor ≫= at_index (Gltf.bufferViews gltfData) = None →
  extractAccessorData accessor None binaryBuffer = Throw TypeError
  ∧ extractAccessor gltfData binaryBuffer accessorIndex = Throw TypeError
  ∧ ∀ name entries attributes,
      forEach_attribute gltfData binaryBuffer
        ((name, accessorIndex) :: entries) attributes
      = Throw TypeError.
Proof.
  intros Hacc [componentType Hct] Hview.
  assert (extractAccessorData accessor None binaryBuffer = Throw TypeError) as Hthrow.
  { unfold extractAccessorData. by rewrite Hct. }
  assert (extractAccessor gltfData binaryBuffer accessorIndex = Throw TypeError)
    as Hone.
  { unfold extractAccessor. by rewrite Hacc, Hview. }
  split; [done|]. split; [done|].
  intros name entries attributes. simpl. by rewrite Hone.
Qed.

Lemma missing_buffer_view_aborts_witness :
  extractAccessorData scalar_ushort_no_view None (Buffer.of_bytes [x01; x02])
  = Throw TypeError.
Proof.
  apply (missing_buffer_view_aborts
           (Gltf.mk [scalar_ushort_no_view] [BufferView.mk None])
           (Buffer.of_bytes [x01; x02]) scalar_ushort_no_view 0 eq_refl).
  - by eexists.
  - reflexivity.
Defined.

(** X6. A returned result has an error exactly when the component type is
    not in the table; without one it repeats the accessor's type, count,
    min and max, and names the component type as the table does. *)
Theorem decoded_fields_echo_accessor (accessor : Accessor.t)
    (bufferView : option BufferView.t) (binaryBuffer : Buffer.t)
    (r : DecodedAccessor.t) :
  extractAccessorData accessor bufferView binaryBuffer = Return r →
  (DecodedAccessor.error r = None
   ↔ is_Some (COMPONENT_TYPES (Accessor.componentType accessor)))
  ∧ (DecodedAccessor.error r = None →
     DecodedAccessor.type r = Some (Accessor.type accessor)
     ∧ DecodedAccessor.componentType r
       = ComponentType.name <$> COMPONENT_TYPES (Accessor.componentType accessor)
     ∧ DecodedAccessor.count r = Some (Accessor.count accessor)
     ∧ DecodedAccessor.min r = Some (Accessor.min accessor)
     ∧ DecodedAccessor.max r = Some (Accessor.max accessor)).
Proof.
  intros Hr.
  destruct (COMPONENT_TYPES (Accessor.componentType accessor))
    as [componentType|] eqn:Hct.
  - destruct (decodeGroups componentType (TYPE_SIZES (Accessor.type accessor))
                accessor bufferView binaryBuffer) as [groups|e] eqn:Hgroups.
    + rewrite (extractAccessorData_decoded _ _ _ _ _ Hct Hgroups) in Hr.
      injection Hr as <-. by split.
    + by rewrite (extractAccessorData_throws _ _ _ _ _ Hct Hgroups) in Hr.
  - unfold extractAccessorData in Hr. rewrite Hct in Hr. injection Hr as <-.
    split; [|done]. split; [done|]. by intros [? [=]].
Qed.

Lemma decoded_fields_echo_accessor_witness :
  DecodedAccessor.count vec2_byte_21_decoded = Some 21
  ∧ DecodedAccessor.componentType vec2_byte_21_decoded = Some "BYTE"%string.
Proof.
  destruct (decoded_fields_echo_accessor (vec2_byte 21) (Some (BufferView.mk None))
              (Buffer.of_bytes (bytes_upto 64)) vec2_byte_21_decoded
              ltac:(vm_compute; reflexivity)) as [_ Hecho].
  destruct (Hecho eq_refl) as (_ & Hname & Hcount & _).
  split; [exact Hcount|exact Hname].
Defined.

(** ** The walk over the attributes *)

(** X7. The walk over the attributes returns exactly when every entry
    decodes without a throw.  The object it returns has for own properties
    the names it started with and the names of the entries other than
    [__proto__], and no others: an assignment to [__proto__] sets the
    prototype and adds no property.  A name that no entry has, and the
    name [__proto__], keep their value; the value under any other name of
    an entry is the decoded data of the last entry of that name. *)
Theorem attribute_walk_returns (gltfData : Gltf.t) (binaryBuffer : Buffer.t)
    (entries : list (string * Z)) (attributes : gmap string DecodedAccessor.t) :
  (returns (forEach_attribute gltfData binaryBuffer entries attributes) = true
   ↔ Forall (fun entry =>
               returns (extractAccessor gltfData binaryBuffer entry.2) = true)
            entries)
  ∧ ∀ result,
      forEach_attribute gltfData binaryBuffer entries attributes = Return result →
      dom result
      = dom attributes
        ∪ list_to_set (filter (fun name => name ≠ "__proto__"%string) entries.*1)
      ∧ (∀ name,
           name ∉ entries.*1 ∨ name = "__proto__"%string →
           result !! name = attributes !! name)
      ∧ (∀ name,
           name ∈ entries.*1 → name ≠ "__proto__"%string →
           ∃ before accessorIndex after data,
             entries = before ++ (name, accessorIndex) :: after
             ∧ (name ∉ after.*1)
             ∧ extractAccessor gltfData binaryBuffer accessorIndex = Return data
             ∧ result !! name = Some data).
Proof.
  revert attributes. induction entries as [|[n i] entries IH]; intros attributes.
  - split; [split; [intros _; constructor|done]|]. intros result [= <-]. simpl.
    split; [set_solver|]. split; [done|]. intros name Hin. by apply elem_of_nil in Hin.
  - simpl.
    destruct (extractAccessor gltfData binaryBuffer i) as [d|e] eqn:Hd; simpl.
    + destruct (IH (assign n d attributes)) as [Hiff Hres]. split.
      * rewrite Hiff. split.
        -- intros Hall. constructor; [simpl; by rewrite Hd|done].
        -- by intros [_ Hall]%Forall_cons.
      * intros result Hresult.
        destruct (Hres result Hresult) as (Hdom & Hother & Hentry).
        assert (∀ name, name ∈ entries.*1 → name ≠ "__proto__"%string →
                ∃ before accessorIndex after data,
                  (n, i) :: entries = before ++ (name, accessorIndex) :: after
                  ∧ (name ∉ after.*1)
                  ∧ extractAccessor gltfData binaryBuffer accessorIndex = Return data
                  ∧ result !! name = Some data) as Hlater.
        { intros name Hin Hname.
          destruct (Hentry name Hin Hname) as (before & j & after & data & -> & ?).
          by exists ((n, i) :: before), j, after, data. }
        unfold assign in Hdom, Hother.
        destruct (String.eqb_spec n "__proto__") as [->|Hn].
        -- split; [rewrite Hdom, filter_cons_False by naive_solver; done|]. split.
           ++ intros name [Hname| ->]; [apply Hother; set_solver|].
              apply Hother. by right.
           ++ intros name Hname Hne. apply Hlater; [set_solver|done].
        -- split.
           { rewrite Hdom, dom_insert_L, filter_cons_True by done. set_solver. }
           split.
           ++ intros name Hname. rewrite Hother by set_solver.
              apply lookup_insert_ne. set_solver.
           ++ intros name Hname Hne.
              destruct (decide (name ∈ entries.*1)) as [Hin|Hnotin];
                [by apply Hlater|].
              assert (name = n) as -> by set_solver.
              exists [], i, entries, d. split; [done|]. split; [done|].
              split; [done|]. rewrite Hother by (by left).
              apply lookup_insert_eq.
    + split; [|done]. split; [done|].
      intros [Hhead _]%Forall_cons. simpl in Hhead. by rewrite Hd in Hhead.
Qed.

(** X8. The walk throws exactly when an entry throws whose predecessors all
    decode, and it throws the error of that entry: the entries after the
    first failure are not looked at. *)
Theorem attribute_walk_throws (gltfData : Gltf.t) (binaryBuffer : Buffer.t)
    (entries : list (string * Z)) (attributes : gmap string DecodedAccessor.t)
    (e : JsError) :
  forEach_attribute gltfData binaryBuffer entries attributes = Throw e
  ↔ ∃ before name accessorIndex after,
      entries = before ++ (name, accessorIndex) :: after
      ∧ Forall (fun entry =>
                  returns (extractAccessor gltfData binaryBuffer entry.2) = true)
               before
      ∧ extractAccessor gltfData binaryBuffer accessorIndex = Throw e.
Proof.
  revert attributes. induction entries as [|[n i] entries IH]; intros attributes.
  - split; [done|]. intros (before & name & j & after & Heq & _).
    by destruct before.
  - simpl.
    destruct (extractAccessor gltfData binaryBuffer i) as [d|e'] eqn:Hd; simpl.
    + rewrite IH. split.
      * intros (before & name & j & after & -> & Hall & Hj).
        exists ((n, i) :: before), name, j, after.
        split; [done|]. split; [|done]. constructor; [simpl; by rewrite Hd|done].
      * intros (before & name & j & after & Heq & Hall & Hj).
        destruct before as [|entry before]; simpl in Heq.
        -- injection Heq as <- <- <-. congruence.
        -- injection Heq as <- ->. apply Forall_cons in Hall as [_ Hall].
           by exists before, name, j, after.
    + split.
      * intros [= <-]. by exists [], n, i, entries.
      * intros (before & name & j & after & Heq & Hall & Hj).
        destruct before as [|entry before]; simpl in Heq.
        -- injection Heq as <- <- <-. congruence.
        -- injection Heq as <- ->. apply Forall_cons in Hall as [Hhead _].
           simpl in Hhead. by rewrite Hd in Hhead.
Qed.

(** ** Containers written out and parsed back *)

Section ContainerFacts.

Lemma length_u32 (z : Z) : List.length (u32 z) = 4%nat.
Proof. apply length_le_split. Qed.

(** A 32-bit field written after [pre] is read back at [length pre]. *)
Lemma u32_at_written (pre post : list byte) (z : Z) (n : nat) :
  List.length pre = n → 0 ≤ z < 2 ^ 32 →
  u32_at (pre ++ u32 z ++ post) n = z.
Proof.
  intros <- Hz. unfold u32_at.
  rewrite drop_app_length, (take_app_length' (u32 z) post 4 (length_u32 z)).
  unfold u32. rewrite le_combine_split. by apply Z.mod_small.
Qed.

Lemma container_bytes (version : Z) (metadata binary : list byte) :
  Buffer.bytes (container version metadata binary)
  = JSON.utf8 "glTF" ++ u32 version
    ++ u32 (28 + Z.of_nat (List.length metadata) + Z.of_nat (List.length binary))
    ++ u32 (Z.of_nat (List.length metadata)) ++ u32 JSON_TAG ++ metadata
    ++ u32 (Z.of_nat (List.length binary)) ++ u32 BIN_TAG ++ binary.
Proof.
  unfold container, glb. cbn [Buffer.bytes Buffer.of_bytes map concat].
  by rewrite <- !app_assoc, app_nil_r.
Qed.

Lemma metadata_container_bytes (version : Z) (metadata : list byte) :
  Buffer.bytes (metadata_container version metadata)
  = JSON.utf8 "glTF" ++ u32 version
    ++ u32 (20 + Z.of_nat (List.length metadata))
    ++ u32 (Z.of_nat (List.length metadata)) ++ u32 JSON_TAG ++ metadata.
Proof.
  unfold metadata_container, glb. cbn [Buffer.bytes Buffer.of_bytes map concat].
  by rewrite <- !app_assoc, app_nil_r.
Qed.

(** The header fields of a byte sequence that starts with the signature, a
    version, a total length, and the length, tag and data of one chunk. *)
Lemma header_fields (version totalLength len tag : Z) (data rest : list byte) :
  0 ≤ totalLength < 2 ^ 32 → 0 ≤ len < 2 ^ 32 → 0 ≤ tag < 2 ^ 32 →
  let bytes :=
    JSON.utf8 "glTF" ++ u32 version ++ u32 totalLength
    ++ u32 len ++ u32 tag ++ data ++ rest in
  take 4 bytes = JSON.utf8 "glTF"
  ∧ u32_at bytes 8 = totalLength
  ∧ u32_at bytes 12 = len
  ∧ u32_at bytes 16 = tag
  ∧ drop 20 bytes = data ++ rest
  ∧ List.length bytes = (20 + List.length data + List.length rest)%nat.
Proof.
  intros Htotal Hlen Htag bytes. split; [reflexivity|].
  split; [|split; [|split; [|split]]].
  - unfold bytes. rewrite (app_assoc (JSON.utf8 "glTF")).
    apply u32_at_written; [|done]. by rewrite length_app, length_u32.
  - unfold bytes. rewrite (app_assoc (u32 version)), (app_assoc (JSON.utf8 "glTF")).
    apply u32_at_written; [|done]. by rewrite !length_app, !length_u32.
  - unfold bytes.
    rewrite (app_assoc (u32 totalLength)), (app_assoc (u32 version)),
      (app_assoc (JSON.utf8 "glTF")).
    apply u32_at_written; [|done]. by rewrite !length_app, !length_u32.
  - unfold bytes.
    rewrite (app_assoc (u32 len)), (app_assoc (u32 totalLength)),
      (app_assoc (u32 version)), (app_assoc (JSON.utf8 "glTF")).
    apply drop_app_length'. by rewrite !length_app, !length_u32.
  - unfold bytes. rewrite !length_app, !length_u32. simpl. lia.
Qed.

End ContainerFacts.

Lemma u32_at_drop (bytes : list byte) (n m : nat) :
  u32_at bytes (n + m) = u32_at (drop n bytes) m.
Proof. unfold u32_at. by rewrite drop_drop. Qed.

(** X9. A container written in the layout, with metadata that parses and
    a total size below 2^32, parses back: [parseGLB] returns the parsed
    metadata and a binary buffer whose bytes are the binary data, as many
    as the chunk declares; the buffer is a view on the bytes of the file,
    [28 + length metadata] bytes in. *)
Theorem container_parses_back (version : Z) (metadata binary : list byte)
    (gltfData : JSON.value) :
  JSON.parse metadata = Return gltfData →
  28 + Z.of_nat (List.length metadata) + Z.of_nat (List.length binary) < 2 ^ 32 →
  ∃ binaryBuffer,
    parseGLB (container version metadata binary)
    = Return (gltfData, Some binaryBuffer)
    ∧ Buffer.bytes binaryBuffer = binary
    ∧ Buffer.byteOffset binaryBuffer = (28 + List.length metadata)%nat
    ∧ Buffer.buffer binaryBuffer
      = Buffer.bytes (container version metadata binary)
    ∧ loadGLB (container version metadata binary)
      = Return (gltfData, binaryBuffer).
Proof.
  intros Hjson Hsize.
  set (b := container version metadata binary).
  set (len1 := Z.of_nat (List.length metadata)) in *.
  set (len2 := Z.of_nat (List.length binary)) in *.
  set (rest := u32 len2 ++ u32 BIN_TAG ++ binary).
  destruct (header_fields version (28 + len1 + len2) len1 JSON_TAG metadata rest)
    as (Hsig & H8 & H12 & H16 & Hdrop & Hlen); [lia|lia|done|].
  assert (Buffer.bytes b
          = JSON.utf8 "glTF" ++ u32 version ++ u32 (28 + len1 + len2)
            ++ u32 len1 ++ u32 JSON_TAG ++ metadata ++ rest) as Hb
    by apply container_bytes.
  rewrite <- Hb in Hsig, H8, H12, H16, Hdrop, Hlen.
  assert (List.length rest = (8 + List.length binary)%nat) as Hrest
    by (unfold rest; rewrite !length_app, !length_u32; lia).
  assert (Z.of_nat (Buffer.length b) = 28 + len1 + len2) as Hblen
    by (unfold Buffer.length; rewrite Hlen, Hrest; lia).
  assert (drop (20 + List.length metadata) (Buffer.bytes b) = rest) as Hdrop2
    by (rewrite <- drop_drop, Hdrop; apply drop_app_length).
  assert (u32_at (Buffer.bytes b) (Z.to_nat (20 + len1)) = len2) as Hlen2.
  { replace (Z.to_nat (20 + len1)) with (20 + List.length metadata + 0)%nat by lia.
    rewrite u32_at_drop, Hdrop2.
    apply (u32_at_written [] _ len2 0); [done|lia]. }
  assert (u32_at (Buffer.bytes b) (Z.to_nat (24 + len1)) = BIN_TAG) as Htag2.
  { replace (Z.to_nat (24 + len1)) with (20 + List.length metadata + 4)%nat by lia.
    rewrite u32_at_drop, Hdrop2.
    apply (u32_at_written (u32 len2) binary BIN_TAG 4); [apply length_u32|done]. }
  assert (parseGLB b
          = Return (gltfData,
                    Some (Buffer.subarray b (28 + len1) (28 + len1 + len2))))
    as Hparse.
  { rewrite parseGLB_chunks; [|by apply magic_glTF|lia].
    rewrite H8, H12, H16, Z.eqb_refl, Hdrop. cbn [negb].
    replace (Z.to_nat len1) with (List.length metadata) by (unfold len1; lia).
    rewrite take_app_length, Hjson.
    cbn [mbind completion_bind].
    rewrite (proj2 (Z.ltb_lt _ _)) by lia.
    rewrite (readUInt32LE_in_range b (20 + len1)),
      (readUInt32LE_in_range b (24 + len1)) by lia.
    cbn [mbind completion_bind]. by rewrite Hlen2, Htag2, Z.eqb_refl. }
  eexists. split; [exact Hparse|]. split; [|split; [|split]].
  - rewrite subarray_bytes by lia.
    replace (Z.to_nat (28 + len1)) with (20 + List.length metadata + 8)%nat by lia.
    rewrite <- drop_drop, Hdrop2. unfold rest.
    rewrite (app_assoc (u32 len2)), drop_app_length'
      by (rewrite length_app, !length_u32; lia).
    replace (Z.to_nat len2) with (List.length binary) by (unfold len2; lia).
    apply take_ge. lia.
  - unfold Buffer.subarray, Buffer.byteOffset. cbn [Buffer.before].
    rewrite length_app, length_take. unfold Buffer.adjustOffset.
    change (List.length (Buffer.before b)) with 0%nat.
    pose proof Hblen as Hblen'. unfold Buffer.length in Hblen'.
    repeat case_match; lia.
  - rewrite subarray_buffer. unfold Buffer.buffer.
    change (Buffer.before b) with (@nil byte).
    change (Buffer.after b) with (@nil byte). by rewrite app_nil_r.
  - unfold loadGLB. by rewrite Hparse.
Qed.

Lemma container_parses_back_witness :
  ∃ binaryBuffer,
    parseGLB (container 2 (JSON.utf8 "{'asset':{'version':'2.0'}}")
                [x01; x02; x03; x04])
    = Return (JSON.Object
                [(JSON.utf8 "asset",
                  JSON.Object [(JSON.utf8 "version", JSON.String (JSON.utf8 "2.0"))])],
              Some binaryBuffer)
    ∧ Buffer.bytes binaryBuffer = [x01; x02; x03; x04].
Proof.
  destruct (container_parses_back 2 (JSON.utf8 "{'asset':{'version':'2.0'}}")
              [x01; x02; x03; x04] _ eq_refl ltac:(vm_compute; reflexivity))
    as (binaryBuffer & Hparse & Hbytes & _).
  exists binaryBuffer. split; [exact Hparse|exact Hbytes].
Defined.

(** X10. A container of the layout without a binary chunk parses to its
    metadata and no binary buffer, and loading it for the report fails
    with the error that the file contains no binary data. *)
Theorem metadata_container_has_no_binary (version : Z) (metadata : list byte)
    (gltfData : JSON.value) :
  JSON.parse metadata = Return gltfData →
  20 + Z.of_nat (List.length metadata) < 2 ^ 32 →
  parseGLB (metadata_container version metadata) = Return (gltfData, None)
  ∧ loadGLB (metadata_container version metadata) = Throw MissingBinaryData.
Proof.
  intros Hjson Hsize.
  set (b := metadata_container version metadata).
  set (len1 := Z.of_nat (List.length metadata)) in *.
  destruct (header_fields version (20 + len1) len1 JSON_TAG metadata [])
    as (Hsig & H8 & H12 & H16 & Hdrop & Hlen); [lia|lia|done|].
  assert (Buffer.bytes b
          = JSON.utf8 "glTF" ++ u32 version ++ u32 (20 + len1)
            ++ u32 len1 ++ u32 JSON_TAG ++ metadata ++ []) as Hb
    by (rewrite app_nil_r; apply metadata_container_bytes).
  rewrite <- Hb in Hsig, H8, H12, H16, Hdrop, Hlen.
  rewrite app_nil_r in Hdrop.
  change (List.length (@nil byte)) with 0%nat in Hlen.
  assert (parseGLB b = Return (gltfData, None)) as Hparse.
  { rewrite parseGLB_chunks;
      [|by apply magic_glTF|unfold Buffer.length; rewrite Hlen; lia].
    rewrite H8, H12, H16, Z.eqb_refl, Hdrop. cbn [negb].
    replace (Z.to_nat len1) with (List.length metadata) by (unfold len1; lia).
    rewrite take_ge, Hjson by lia.
    cbn [mbind completion_bind].
    by rewrite (proj2 (Z.ltb_ge _ _)) by lia. }
  split; [done|]. unfold loadGLB. by rewrite Hparse.
Qed.

Lemma metadata_container_has_no_binary_witness :
  loadGLB (metadata_container 2 (JSON.utf8 "{'meshes':[]}"))
  = Throw MissingBinaryData.
Proof.
  apply (metadata_container_has_no_binary 2 (JSON.utf8 "{'meshes':[]}")
           (JSON.Object [(JSON.utf8 "meshes", JSON.Array [])]) eq_refl).
  vm_compute. reflexivity.
Defined.

(** What a parse that returns a binary buffer has read. *)
Lemma parseGLB_returns_binary (b : Buffer.t) (gltfData : JSON.value)
    (binaryBuffer : Buffer.t) :
  parseGLB b = Return (gltfData, Some binaryBuffer) →
  let len1 := u32_at (Buffer.bytes b) 12 in
  let len2 := u32_at (Buffer.bytes b) (Z.to_nat (20 + len1)) in
  magic b = "glTF"%string
  ∧ 28 + len1 ≤ Z.of_nat (Buffer.length b)
  ∧ 0 ≤ len1 ∧ 0 ≤ len2
  ∧ binaryBuffer = Buffer.subarray b (28 + len1) (28 + len1 + len2).
Proof.
  intros Hret len1 len2.
  pose proof (u32_at_range (Buffer.bytes b) 12) as Hr1.
  pose proof (u32_at_range (Buffer.bytes b) (Z.to_nat (20 + len1))) as Hr2.
  fold len1 in Hr1. fold len2 in Hr2.
  assert (magic b = "glTF"%string) as Hmagic.
  { destruct (String.eqb (magic b) "glTF") eqn:Hm; [by apply String.eqb_eq|].
    apply String.eqb_neq in Hm.
    by rewrite (parseGLB_refuses_other_magic b Hm) in Hret. }
  assert (20 ≤ Z.of_nat (Buffer.length b)) as Hlen.
  { destruct (Z.lt_ge_cases (Z.of_nat (Buffer.length b)) 20) as [Hshort|]; [|done].
    by rewrite (parseGLB_short_header b Hmagic Hshort) in Hret. }
  rewrite parseGLB_chunks in Hret by done. fold len1 in Hret.
  destruct (negb _); [discriminate|].
  destruct (JSON.parse _) as [g|e]; [|discriminate]. simpl in Hret.
  destruct (_ <? _); [|discriminate].
  destruct (Buffer.readUInt32LE b (20 + len1)) as [l2|e] eqn:Hl2;
    [|discriminate]. simpl in Hret.
  destruct (Buffer.readUInt32LE b (24 + len1)) as [tag2|e] eqn:Htag2;
    [|discriminate]. simpl in Hret.
  apply readUInt32LE_returns in Hl2 as [_ ->]; [|lia].
  apply readUInt32LE_returns in Htag2 as [Hfit _]; [|lia].
  destruct (tag2 =? BIN_TAG); [|discriminate]. injection Hret as _ <-.
  fold len2. repeat split; (done || lia).
Qed.

(** X11. A second chunk whose tag is not the binary tag is passed over
    without an error: with the signature, the JSON tag, metadata that
    parses, a cursor below the total length and a second chunk header
    inside the buffer, the parse returns the metadata and no binary
    buffer, and loading the file for the report fails for want of binary
    data. *)
Theorem other_second_chunk_is_skipped (b : Buffer.t) (gltfData : JSON.value) :
  magic b = "glTF"%string →
  let totalLength := u32_at (Buffer.bytes b) 8 in
  let len1 := u32_at (Buffer.bytes b) 12 in
  28 + len1 ≤ Z.of_nat (Buffer.length b) →
  u32_at (Buffer.bytes b) 16 = JSON_TAG →
  JSON.parse (take (Z.to_nat len1) (drop 20 (Buffer.bytes b))) = Return gltfData →
  20 + len1 < totalLength →
  u32_at (Buffer.bytes b) (Z.to_nat (24 + len1)) ≠ BIN_TAG →
  parseGLB b = Return (gltfData, None)
  ∧ loadGLB b = Throw MissingBinaryData.
Proof.
  intros Hmagic totalLength len1 Hfit Htag Hjson Hcursor Hother.
  pose proof (u32_at_range (Buffer.bytes b) 12) as Hr1. fold len1 in Hr1.
  assert (parseGLB b = Return (gltfData, None)) as Hparse.
  { rewrite parseGLB_chunks by (done || lia). fold totalLength len1.
    rewrite Htag, Hjson. simpl.
    rewrite (proj2 (Z.ltb_lt _ _) Hcursor).
    rewrite (readUInt32LE_in_range b (20 + len1)),
      (readUInt32LE_in_range b (24 + len1)) by lia.
    simpl. by rewrite (proj2 (Z.eqb_neq _ _) Hother). }
  split; [done|]. unfold loadGLB. by rewrite Hparse.
Qed.

Lemma other_second_chunk_is_skipped_witness :
  parseGLB other_second_chunk = Return (JSON.Object [], None)
  ∧ loadGLB other_second_chunk = Throw MissingBinaryData.
Proof.
  apply (other_second_chunk_is_skipped other_second_chunk (JSON.Object []) eq_refl);
    [vm_compute; discriminate | reflexivity | reflexivity
    | vm_compute; reflexivity | vm_compute; discriminate].
Defined.

(** X12. The binary buffer a parse returns is a view on the store of the
    buffer parsed, not a copy: it starts [28 + len1] bytes after the start
    of that buffer and is as long as the chunk declares, or as long as the
    bytes that are left when those are fewer. *)
Theorem binary_buffer_is_a_view (b : Buffer.t) (gltfData : JSON.value)
    (binaryBuffer : Buffer.t) :
  parseGLB b = Return (gltfData, Some binaryBuffer) →
  let len1 := u32_at (Buffer.bytes b) 12 in
  let len2 := u32_at (Buffer.bytes b) (Z.to_nat (20 + len1)) in
  Buffer.buffer binaryBuffer = Buffer.buffer b
  ∧ Z.of_nat (Buffer.byteOffset binaryBuffer)
    = Z.of_nat (Buffer.byteOffset b) + 28 + len1
  ∧ Z.of_nat (Buffer.length binaryBuffer)
    = Z.min len2 (Z.of_nat (Buffer.length b) - (28 + len1)).
Proof.
  intros Hret len1 len2.
  destruct (parseGLB_returns_binary b gltfData binaryBuffer Hret)
    as (_ & Hfit & Hlen1 & Hlen2 & ->).
  fold len1 in Hfit, Hlen1. fold len1 len2 in Hlen2. fold len1 len2.
  split; [apply subarray_buffer|]. split.
  - unfold Buffer.subarray, Buffer.byteOffset. cbn [Buffer.before].
    rewrite length_app, length_take. unfold Buffer.adjustOffset.
    pose proof Hfit as Hfit'. unfold Buffer.length in Hfit'.
    repeat case_match; lia.
  - unfold Buffer.length at 1. rewrite subarray_bytes by lia.
    rewrite length_take, length_drop. unfold Buffer.length in *. lia.
Qed.

Lemma binary_buffer_is_a_view_witness :
  ∃ binaryBuffer,
    parseGLB long_declared_binary = Return (JSON.Object [], Some binaryBuffer)
    ∧ Buffer.byteOffset binaryBuffer = 30%nat
    ∧ Buffer.length binaryBuffer = 3%nat.
Proof.
  eexists. split; [reflexivity|].
  destruct (binary_buffer_is_a_view long_declared_binary _ _ eq_refl)
    as (_ & Hoffset & Hlength).
  split; [|reflexivity].
  apply Nat2Z.inj. etransitivity; [exact Hoffset|]. reflexivity.
Defined.

(** X13. Parsing and decoding compose: decoding an accessor through the
    view that [parseGLB] returns gives what decoding it on a buffer of its
    own with the bytes of the binary chunk gives, for every accessor and
    buffer view. *)
Theorem decode_after_parse (b : Buffer.t) (gltfData : JSON.value)
    (binaryBuffer : Buffer.t) (accessor : Accessor.t)
    (bufferView : option BufferView.t) :
  parseGLB b = Return (gltfData, Some binaryBuffer) →
  let len1 := u32_at (Buffer.bytes b) 12 in
  let len2 := u32_at (Buffer.bytes b) (Z.to_nat (20 + len1)) in
  extractAccessorData accessor bufferView binaryBuffer
  = extractAccessorData accessor bufferView
      (Buffer.of_bytes
         (take (Z.to_nat len2) (drop (Z.to_nat (28 + len1)) (Buffer.bytes b)))).
Proof.
  intros Hret len1 len2.
  destruct (parseGLB_returns_binary b gltfData binaryBuffer Hret)
    as (_ & Hfit & Hlen1 & Hlen2 & ->).
  fold len1 in Hfit, Hlen1. fold len1 len2 in Hlen2. fold len1 len2.
  unfold extractAccessorData.
  destruct (COMPONENT_TYPES _) as [componentType|]; [|done].
  rewrite (decodeGroups_bytes_only accessor bufferView
             (Buffer.subarray b (28 + len1) (28 + len1 + len2))
             (Buffer.of_bytes
                (take (Z.to_nat len2)
                   (drop (Z.to_nat (28 + len1)) (Buffer.bytes b)))));
    [done|].
  by rewrite subarray_bytes by lia.
Qed.

Lemma decode_after_parse_witness :
  ∃ binaryBuffer,
    parseGLB long_declared_binary = Return (JSON.Object [], Some binaryBuffer)
    ∧ extractAccessorData scalar_ubyte_3 (Some (BufferView.mk None)) binaryBuffer
      = extractAccessorData scalar_ubyte_3 (Some (BufferView.mk None))
          (Buffer.of_bytes [x01; x02; x03]).
Proof.
  eexists. split; [reflexivity|].
  exact (decode_after_parse long_declared_binary _ _ scalar_ubyte_3
           (Some (BufferView.mk None)) eq_refl).
Defined.

(** X14. [parseGLB] throws one of four errors and no other: the signature
    error, exactly when the first four bytes decoded as ASCII are not
    [glTF]; the error of a first chunk that is not JSON; the range error
    of a 32-bit read; the syntax error of [JSON.parse]. *)
Theorem parseGLB_error_kinds (b : Buffer.t) :
  (parseGLB b = Throw InvalidSignature ↔ magic b ≠ "glTF"%string)
  ∧ ∀ e, parseGLB b = Throw e →
         e = InvalidSignature ∨ e = MissingMetadataChunk
         ∨ e = RangeError ∨ e = SyntaxError.
Proof.
  split.
  - split.
    + intros Hthrow.
      destruct (parseGLB_throws b _ Hthrow) as [[Hne _]|[_ [H|[H|[H _]]]]];
        [done|discriminate H..].
    + apply parseGLB_refuses_other_magic.
  - intros e Hthrow.
    destruct (parseGLB_throws b e Hthrow) as [[_ ->]|[_ [->|[->|[-> _]]]]]; auto.
Qed.

(** ** The report *)

Section ReportFacts.

Context {A B : Type} (f : A → completion B).

Lemma mapM_returns (l : list A) (ys : list B) :
  mapM f l = Return ys → Forall2 (fun x y => f x = Return y) l ys.
Proof.
  revert ys. induction l as [|x l IH]; intros ys; simpl.
  - intros [= <-]. constructor.
  - destruct (f x) as [y|e] eqn:Hy; [|done]. simpl.
    destruct (mapM f l) as [ys'|e]; [|done]. simpl.
    intros [= <-]. constructor; [done|by apply IH].
Qed.

Lemma mapM_returns_iff (l : list A) :
  returns (mapM f l) = true ↔ Forall (fun x => returns (f x) = true) l.
Proof.
  induction l as [|x l IH]; simpl; [by split; [constructor|]|].
  rewrite Forall_cons. destruct (f x) as [y|e]; simpl; [|by split; [|intros [? _]]].
  rewrite <- IH. destruct (mapM f l); simpl; by split; [|intros [_ ?]].
Qed.

End ReportFacts.

Lemma forEach_attribute_returns_iff (gltfData : Gltf.t) (binaryBuffer : Buffer.t)
    (entries : list (string * Z)) (attributes : gmap string DecodedAccessor.t) :
  returns (forEach_attribute gltfData binaryBuffer entries attributes) = true
  ↔ Forall (fun entry =>
              returns (extractAccessor gltfData binaryBuffer entry.2) = true)
           entries.
Proof.
  revert attributes. induction entries as [|[n i] entries IH]; intros attributes.
  - by split; [constructor|].
  - simpl. rewrite Forall_cons. simpl.
    destruct (extractAccessor gltfData binaryBuffer i); simpl;
      [|by split; [|intros [? _]]].
    rewrite IH. by split; [|intros [_ ?]].
Qed.

Lemma extractPrimitive_returns_iff (gltfData : Gltf.t) (binaryBuffer : Buffer.t)
    (primitive : Primitive.t) :
  returns (extractPrimitive gltfData binaryBuffer primitive) = true
  ↔ primitive_decodes gltfData binaryBuffer primitive.
Proof.
  unfold extractPrimitive, primitive_decodes.
  rewrite <- (forEach_attribute_returns_iff gltfData binaryBuffer _ ∅).
  destruct (forEach_attribute _ _ _ _) as [attributes|e]; simpl;
    [|by split; [|intros [? _]]].
  destruct (Primitive.indices primitive) as [i|]; simpl.
  - destruct (extractAccessor gltfData binaryBuffer i) eqn:Hi; simpl.
    + split; [|done]. intros _. split; [done|]. intros ? [= <-]. by rewrite Hi.
    + split; [done|]. intros [_ Hi']. specialize (Hi' i eq_refl).
      by rewrite Hi in Hi'.
  - split; [|done]. intros _. by split.
Qed.

Lemma reportPrimitive_returns_iff (gltfData : Document.t) (binaryBuffer : Buffer.t)
    (primitive : MeshPrimitive.t) :
  returns (reportPrimitive gltfData binaryBuffer primitive) = true
  ↔ primitive_decodes (Document.gltf gltfData) binaryBuffer
      (MeshPrimitive.walk primitive).
Proof.
  rewrite <- extractPrimitive_returns_iff. unfold reportPrimitive.
  by destruct (extractPrimitive _ _ _).
Qed.

(** X15. The report is produced exactly when every primitive of every mesh
    decodes: one accessor index outside the document, or one recognized
    accessor without a buffer view, or one ragged window, anywhere, and
    there is no report at all. *)
Theorem report_iff_all_primitives_decode (gltfData : Document.t)
    (binaryBuffer : Buffer.t) :
  returns (extractBinaryData gltfData binaryBuffer) = true
  ↔ Forall (fun mesh =>
              Forall (fun primitive =>
                        primitive_decodes (Document.gltf gltfData) binaryBuffer
                          (MeshPrimitive.walk primitive))
                     (default [] (Mesh.primitives mesh)))
           (default [] (Document.meshes gltfData)).
Proof.
  unfold extractBinaryData.
  set (perMesh := fun mesh : Mesh.t =>
         primitives ← mapM (reportPrimitive gltfData binaryBuffer)
                        (default [] (Mesh.primitives mesh));
         mret (MeshEntry.mk (Mesh.name mesh) primitives)).
  transitivity (returns (mapM perMesh (default [] (Document.meshes gltfData)))
                = true).
  { by destruct (mapM perMesh _). }
  rewrite mapM_returns_iff. apply Forall_iff. intros mesh.
  transitivity (returns (mapM (reportPrimitive gltfData binaryBuffer)
                           (default [] (Mesh.primitives mesh))) = true).
  { unfold perMesh. by destruct (mapM _ _). }
  rewrite mapM_returns_iff. apply Forall_iff. intros primitive.
  apply reportPrimitive_returns_iff.
Qed.

(** X16. In a report that is produced the metadata agrees with the body:
    the mesh count is the number of mesh entries, the material count the
    number of material entries, the total of bytes the length of the binary
    buffer, the truncation limit 20; the mesh entries follow the meshes of
    the document, each with its name and one primitive entry for each
    primitive; the material entries are numbered from 0 in order. *)
Theorem report_agrees_with_document (gltfData : Document.t)
    (binaryBuffer : Buffer.t) (report : Report.t) :
  extractBinaryData gltfData binaryBuffer = Return report →
  let metadata := Report.metadata report in
  Metadata.meshCount metadata = List.length (Report.meshes report)
  ∧ Metadata.materialCount metadata = List.length (Report.materials report)
  ∧ Metadata.accessorCount metadata
    = List.length (Gltf.accessors (Document.gltf gltfData))
  ∧ Metadata.totalBytes metadata = Buffer.length binaryBuffer
  ∧ Metadata.truncationLimit metadata = 20%nat
  ∧ Forall2 (fun mesh entry =>
               MeshEntry.name entry = Mesh.name mesh
               ∧ List.length (MeshEntry.primitives entry)
                 = List.length (default [] (Mesh.primitives mesh)))
            (default [] (Document.meshes gltfData)) (Report.meshes report)
  ∧ ∀ i entry, Report.materials report !! i = Some entry →
               MaterialEntry.index entry = i.
Proof.
  unfold extractBinaryData.
  set (perMesh := fun mesh : Mesh.t =>
         primitives ← mapM (reportPrimitive gltfData binaryBuffer)
                        (default [] (Mesh.primitives mesh));
         mret (MeshEntry.mk (Mesh.name mesh) primitives)).
  destruct (mapM perMesh (default [] (Document.meshes gltfData)))
    as [meshEntries|e] eqn:Hmeshes; [|done].
  intros [= <-]. simpl.
  apply mapM_returns in Hmeshes.
  split; [by apply Forall2_length in Hmeshes|].
  split; [by rewrite length_imap|]. split; [done|]. split; [done|].
  split; [done|]. split.
  - eapply Forall2_impl; [exact Hmeshes|]. intros mesh entry Hentry.
    unfold perMesh in Hentry.
    destruct (mapM (reportPrimitive gltfData binaryBuffer) _)
      as [primitives|e] eqn:Hprimitives; [|done].
    injection Hentry as <-. simpl. split; [done|].
    apply mapM_returns, Forall2_length in Hprimitives. done.
  - intros i entry Hentry. rewrite list_lookup_imap in Hentry.
    destruct (default [] (Document.materials gltfData) !! i); [|done].
    by injection Hentry as <-.
Qed.

Lemma report_agrees_with_document_witness :
  ∃ report,
    extractBinaryData one_mesh_document (Buffer.of_bytes [x01; x02; x03])
    = Return report
    ∧ Metadata.meshCount (Report.metadata report) = 1%nat
    ∧ List.length (Report.meshes report) = 1%nat.
Proof.
  eexists. split; [vm_compute; reflexivity|].
  destruct (report_agrees_with_document one_mesh_document
              (Buffer.of_bytes [x01; x02; x03]) _ ltac:(vm_compute; reflexivity))
    as (Hcount & _).
  split; [reflexivity|]. rewrite <- Hcount. reflexivity.
Defined.

(** ** The values of the elements *)

Section ElementFacts.

Lemma digits2_pos_bounds (m : positive) :
  2 ^ (Zpos (digits2_pos m) - 1) ≤ Zpos m < 2 ^ Zpos (digits2_pos m).
Proof.
  induction m as [m IH|m IH|]; cbn [digits2_pos].
  - rewrite Pos2Z.inj_succ.
    replace (Z.succ (Zpos (digits2_pos m)) - 1)
      with (Z.succ (Zpos (digits2_pos m) - 1)) by lia.
    rewrite !Z.pow_succ_r by lia. lia.
  - rewrite Pos2Z.inj_succ.
    replace (Z.succ (Zpos (digits2_pos m)) - 1)
      with (Z.succ (Zpos (digits2_pos m) - 1)) by lia.
    rewrite !Z.pow_succ_r by lia. lia.
  - simpl. lia.
Qed.

Lemma digits2_pos_le (m : positive) (n : Z) :
  0 ≤ n → Zpos m < 2 ^ n → Zpos (digits2_pos m) ≤ n.
Proof.
  intros Hn Hm. pose proof (digits2_pos_bounds m) as [Hlo _].
  destruct (Z.le_gt_cases (Zpos (digits2_pos m)) n) as [|Hgt]; [done|].
  assert (2 ^ n ≤ 2 ^ (Zpos (digits2_pos m) - 1))
    by (apply Z.pow_le_mono_r; lia).
  lia.
Qed.

Lemma digits2_pos_ge (m : positive) (n : Z) :
  2 ^ n ≤ Zpos m → n < Zpos (digits2_pos m).
Proof.
  intros Hm. pose proof (digits2_pos_bounds m) as [_ Hhi].
  destruct (Z.lt_ge_cases n (Zpos (digits2_pos m))) as [|Hge]; [done|].
  assert (2 ^ Zpos (digits2_pos m) ≤ 2 ^ n) by (apply Z.pow_le_mono_r; lia).
  lia.
Qed.

(** Every 32-bit pattern decodes to a binary32 value. *)
Lemma float32_valid (w : Z) : valid_binary 24 128 (float32 w) = true.
Proof.
  unfold float32.
  set (e := Z.land (Z.shiftr w 23) 255).
  set (m := Z.land w (2 ^ 23 - 1)).
  assert (0 ≤ e < 256) as He.
  { unfold e. change 255 with (Z.ones 8). rewrite Z.land_ones by lia.
    by apply Z.mod_pos_bound. }
  assert (0 ≤ m < 2 ^ 23) as Hm.
  { unfold m. change (2 ^ 23 - 1) with (Z.ones 23). rewrite Z.land_ones by lia.
    by apply Z.mod_pos_bound. }
  destruct (e =? 0) eqn:He0.
  - destruct (m =? 0) eqn:Hm0; [done|]. apply Z.eqb_neq in Hm0.
    cbn [valid_binary]. unfold bounded, canonical_mantissa, fexp, emin.
    pose proof (digits2_pos_le (Z.to_pos m) 23 ltac:(lia)
                  ltac:(rewrite Z2Pos.id by lia; lia)).
    apply andb_true_intro. split; [apply Z.eqb_eq; lia|apply Z.leb_le; lia].
  - apply Z.eqb_neq in He0. destruct (e =? 255) eqn:He255.
    + by destruct (m =? 0).
    + apply Z.eqb_neq in He255.
      cbn [valid_binary]. unfold bounded, canonical_mantissa, fexp, emin.
      pose proof (digits2_pos_le (Z.to_pos (m + 2 ^ 23)) 24 ltac:(lia)
                    ltac:(rewrite Z2Pos.id by lia;
                          change (2 ^ 24) with (2 * 2 ^ 23); lia)).
      pose proof (digits2_pos_ge (Z.to_pos (m + 2 ^ 23)) 23
                    ltac:(rewrite Z2Pos.id by lia; lia)).
      apply andb_true_intro. split; [apply Z.eqb_eq; lia|apply Z.leb_le; lia].
Qed.

(** An element read from as many bytes as its kind has is a value of the
    kind. *)
Lemma element_fits (k : TypedArray) (bs : list byte) :
  (List.length bs ≤ BYTES_PER_ELEMENT k)%nat → element_of k (element k bs).
Proof.
  intros Hlen. pose proof (le_combine_bound bs) as [Hlo Hhi].
  assert (le_combine bs < 2 ^ (8 * Z.of_nat (BYTES_PER_ELEMENT k))) as Hw.
  { eapply Z.lt_le_trans; [exact Hhi|]. apply Z.pow_le_mono_r; lia. }
  destruct k; simpl in *; unfold signed;
    try change (2 ^ (8 * 1)) with 256 in Hw;
    try change (2 ^ (8 * 2)) with 65536 in Hw;
    try change (2 ^ (8 * 4)) with 4294967296 in Hw;
    try change (2 ^ (8 - 1)) with 128; try change (2 ^ 8) with 256;
    try change (2 ^ (16 - 1)) with 32768; try change (2 ^ 16) with 65536;
    try apply float32_valid; try case_match; lia.
Qed.

Lemma new_TypedArray_fits (k : TypedArray) (bs : list byte) (values : list number) :
  new_TypedArray k bs = Return values → Forall (element_of k) values.
Proof.
  unfold new_TypedArray. case_match; [|done]. intros [= <-].
  apply Forall_forall. intros v (i & <- & _)%list_elem_of_In%in_map_iff.
  apply element_fits. rewrite length_take. lia.
Qed.

(** The values of the groups are among the values grouped. *)
Lemma groupedValues_from_values (typeSize : option nat) (values : list number)
    (P : number → Prop) :
  (∀ n, typeSize = Some n → (0 < n)%nat) →
  Forall P values →
  Forall (fun g => Forall P (components g)) (groupedValues typeSize values).
Proof.
  intros Hpos Hall. destruct typeSize as [n|].
  - destruct (group_loop_cuts n values (Hpos n eq_refl) (List.length values) 0 []
                ltac:(lia)) as (groups & Hgroups & Hconcat & _).
    unfold groupedValues. rewrite Hgroups. simpl.
    rewrite drop_0 in Hconcat. rewrite <- Hconcat in Hall.
    clear -Hall. induction groups as [|g groups IH]; [constructor|].
    simpl in Hall. apply Forall_app in Hall as [Hg Hrest].
    constructor; [done|by apply IH].
  - unfold groupedValues. destruct values as [|v values]; simpl; [done|].
    by repeat constructor.
Qed.

End ElementFacts.

(** X17. Every number in a decoded result is a value of the accessor's
    component type: a BYTE between -128 and 127, an UNSIGNED_SHORT between
    0 and 65535, and so on, and a FLOAT a binary32 value; this holds for
    the groups under [values] and under [truncatedValues] alike. *)
Theorem decoded_values_fit_component_type (accessor : Accessor.t)
    (bufferView : option BufferView.t) (binaryBuffer : Buffer.t)
    (componentType : ComponentType.t) (r : DecodedAccessor.t)
    (groups : list grouped) :
  COMPONENT_TYPES (Accessor.componentType accessor) = Some componentType →
  extractAccessorData accessor bufferView binaryBuffer = Return r →
  DecodedAccessor.values r = Some groups
  ∨ DecodedAccessor.truncatedValues r = Some groups →
  Forall (fun g => Forall (element_of (ComponentType.array componentType))
                     (components g))
         groups.
Proof.
  intros Hct Hr Hgroups.
  destruct (decodeGroups componentType (TYPE_SIZES (Accessor.type accessor))
              accessor bufferView binaryBuffer) as [all|e] eqn:Hall;
    [|by rewrite (extractAccessorData_throws _ _ _ _ _ Hct Hall) in Hr].
  rewrite (extractAccessorData_decoded _ _ _ _ _ Hct Hall) in Hr.
  injection Hr as <-.
  assert (Forall (fun g => Forall (element_of (ComponentType.array componentType))
                             (components g)) all) as Hfit.
  { unfold decodeGroups in Hall.
    destruct bufferView as [bufferView|]; [|done].
    destruct (new_TypedArray _ _) as [values|e] eqn:Hvalues; [|done].
    injection Hall as <-.
    apply groupedValues_from_values; [|by eapply new_TypedArray_fits].
    intros n Hn. by eapply type_size_pos. }
  unfold decoded in Hgroups; simpl in Hgroups.
  destruct (TRUNCATE_LIMIT <? List.length all)%nat;
    destruct Hgroups as [[= <-]|[= <-]]; [by apply Forall_take|done].
Qed.

Lemma decoded_values_fit_component_type_witness :
  Forall (fun g => Forall (element_of Int16Array) (components g))
    [Group [Int 256; Int 770; Int 1284];
     Group [Int 1798; Int 2312; Int 2826];
     Group [Int 3340]].
Proof.
  apply (decoded_values_fit_component_type vec3_short_3
           (Some (BufferView.mk None)) (Buffer.of_bytes (bytes_upto 14))
           (ComponentType.mk "SHORT" 2 Int16Array) _ _ eq_refl eq_refl).
  left. reflexivity.
Defined.

(** X18. Reading an integer element inverts writing it: the bytes of an
    integer of the kind's range, lowest byte first and in two's complement
    when negative, are read back as that integer. *)
Theorem integer_element_reads_back (k : TypedArray) (z : Z) :
  is_integer_kind k = true →
  element_of k (Int z) →
  element k (le_split (BYTES_PER_ELEMENT k) z) = Int z.
Proof.
  intros Hint Hz. unfold element. rewrite le_combine_split.
  destruct k; try discriminate Hint; simpl in Hz; unfold signed;
    cbn [BYTES_PER_ELEMENT];
    try change (2 ^ (Z.of_nat 1 * 8)) with 256;
    try change (2 ^ (Z.of_nat 2 * 8)) with 65536;
    try change (2 ^ (Z.of_nat 4 * 8)) with 4294967296;
    try change (2 ^ (8 - 1)) with 128; try change (2 ^ 8) with 256;
    try change (2 ^ (16 - 1)) with 32768; try change (2 ^ 16) with 65536;
    f_equal.
  - destruct (Z.neg_nonneg_cases z).
    + replace (z mod 256) with (z + 256)
        by (apply (Z.mod_unique _ _ (-1)); lia).
      case_match; lia.
    + rewrite Z.mod_small by lia. case_match; lia.
  - apply Z.mod_small. lia.
  - destruct (Z.neg_nonneg_cases z).
    + replace (z mod 65536) with (z + 65536)
        by (apply (Z.mod_unique _ _ (-1)); lia).
      case_match; lia.
    + rewrite Z.mod_small by lia. case_match; lia.
  - apply Z.mod_small. lia.
  - apply Z.mod_small. lia.
Qed.

Lemma integer_element_reads_back_witness :
  element Int16Array (le_split 2 (-2)) = Int (-2).
Proof.
  apply (integer_element_reads_back Int16Array (-2) eq_refl).
  simpl. lia.
Defined.

(** ** The signature check on the bytes *)

(** X19. The signature check reads the first four bytes with their high
    bits cleared: [parseGLB] throws the signature error exactly when those
    four 7-bit codes are not the codes of [glTF], 103, 108, 84 and 70;
    a buffer of fewer than four bytes never has them. *)
Theorem signature_check_on_bytes (b : Buffer.t) :
  parseGLB b = Throw InvalidSignature
  ↔ map (fun x => N.land (Byte.to_N x) 127) (take 4 (Buffer.bytes b))
    ≠ [103; 108; 84; 70]%N.
Proof.
  assert (magic b = "glTF"%string
          ↔ map (fun x => N.land (Byte.to_N x) 127) (take 4 (Buffer.bytes b))
            = [103; 108; 84; 70]%N) as Hmagic.
  { rewrite magic_bytes. split.
    - intros H%(f_equal list_ascii_of_string).
      rewrite list_ascii_of_string_of_list_ascii in H.
      apply (f_equal (map N_of_ascii)) in H. rewrite map_map in H.
      change (map N_of_ascii (list_ascii_of_string "glTF"))
        with [103; 108; 84; 70]%N in H.
      rewrite <- H. apply map_ext. intros x.
      unfold Buffer.ascii_char. symmetry. apply N_ascii_embedding.
      eapply N.le_lt_trans; [apply N.land_le_r|]. reflexivity.
    - intros H. apply (f_equal (map ascii_of_N)) in H. rewrite map_map in H.
      unfold Buffer.ascii_char. rewrite H. reflexivity. }
  rewrite <- Hmagic. split.
  - intros Hthrow.
    destruct (parseGLB_throws b _ Hthrow) as [[Hne _]|[_ [H|[H|[H _]]]]];
      [done|discriminate H..].
  - apply parseGLB_refuses_other_magic.
Qed.

(** A view into a larger store decodes its own three bytes. *)
Example view_decodes_its_bytes :
  extractAccessorData scalar_ubyte_3 (Some (BufferView.mk None)) view_in_store
  = Return (decoded scalar_ubyte_3 (ComponentType.mk "UNSIGNED_BYTE" 1 Uint8Array)
              [Bare (Int 1); Bare (Int 2); Bare (Int 3)]).
Proof. reflexivity. Qed.

(** One accessor index outside the document, and there is no report; an
    accessor of an unknown component type leaves an error entry in it. *)
Example report_aborts_on_bad_index :
  extractBinaryData bad_index_document (Buffer.of_bytes [x01; x02; x03])
  = Throw TypeError.
Proof. reflexivity. Qed.

Example report_keeps_error_entry :
  ∃ report,
    extractBinaryData one_mesh_document (Buffer.of_bytes [x01; x02; x03])
    = Return report
    ∧ (PrimitiveEntry.indices <$> (Report.meshes report !! 0%nat
                                    ≫= fun mesh => MeshEntry.primitives mesh !! 0%nat))
      = Some (Some (unknown_component_type 9999)).
Proof. eexists. split; [vm_compute; reflexivity|]. reflexivity. Qed.
